(** * pycocoedit: the COCO dataset editor of [pycocoedit/cocodata.py]

    A shallow embedding of [validate_keys], of the [CocoEditor] methods
    [__init__], [add_custom_filter], [apply_filter], [reset] and [correct],
    and the properties of the specification that concern them.

    Python objects are embedded as follows.
    - A record (a [dict] read from JSON) is a finite map from field names to
      values, [gmap string value].
    - Methods of [CocoEditor] read and assign the attributes of [self] and
      may raise: they live in a state-and-exception monad [M] whose state is
      the editor.  An exception keeps the state reached when it was raised,
      as an assignment to [self.x] that was executed stays executed.
    - Local computations that may raise but assign no attribute live in the
      exception monad [result]. *)

From Stdlib Require Import ZArith String List Bool Lia.
From stdpp Require Import base option list strings gmap.

Local Open Scope Z_scope.
Local Open Scope string_scope.
Local Open Scope list_scope.

(** ** Values and Python equality *)

(** The values a field holds.  JSON objects nested inside a field and
    floating-point numbers are left out of the model. *)
#[warnings="-register-all"]
Inductive value : Type :=
| VNone
| VBool (b : bool)
| VInt (n : Z)
| VStr (s : string)
| VList (l : list value).

(** [x == y].  [bool] is a subclass of [int] in Python: [True == 1]. *)
Fixpoint py_eq (x y : value) {struct x} : bool :=
  match x, y with
  | VNone, VNone => true
  | VBool a, VBool b => Bool.eqb a b
  | VBool a, VInt n => Z.eqb (Z.b2z a) n
  | VInt m, VBool b => Z.eqb m (Z.b2z b)
  | VInt m, VInt n => Z.eqb m n
  | VStr s, VStr t => String.eqb s t
  | VList l, VList m =>
      (fix list_eq (l m : list value) {struct l} : bool :=
         match l, m with
         | [], [] => true
         | a :: l', b :: m' => py_eq a b && list_eq l' m'
         | _, _ => false
         end) l m
  | _, _ => false
  end.

(** [x in l] for a list [l]: [e == x] for some item [e] of [l]. *)
Definition py_in (x : value) (l : list value) : bool :=
  existsb (fun e => py_eq e x) l.

(** A record of a collection. *)
Abbreviation Record := (gmap string value).

(** ** Exceptions *)

Inductive exn : Type :=
(** [KeyError(f"Missing keys {missing_keys} in {target} with ID: {id}")]:
    the three values the message is formatted from. *)
| MissingKeys (missing_keys : list string) (target : string) (id : value)
(** [d[key]] for a key that [d] does not have. *)
| KeyError (key : string)
| ValueError (msg : string)
| IndexError
(** Whatever a caller-supplied decision function raises. *)
| Raised (what : string).

Inductive result (A : Type) : Type :=
| Ok (a : A)
| Raise (e : exn).
Arguments Ok {A} a.
Arguments Raise {A} e.

#[global] Instance result_ret : MRet result := fun A a => Ok a.
#[global] Instance result_bind : MBind result := fun A B f m =>
  match m with
  | Ok a => f a
  | Raise e => Raise e
  end.

(** [for x in l: s = body(x, s)], the loop state [s] threaded through. *)
Fixpoint for_in {A S : Type} (l : list A) (body : A -> S -> result S) (s : S)
  : result S :=
  match l with
  | [] => Ok s
  | x :: rest => s' ← body x s; for_in rest body s'
  end.

(** [[f(x) for x in l]]. *)
Definition list_comp {A B : Type} (f : A -> result B) (l : list A)
  : result (list B) :=
  for_in l (fun x acc => y ← f x; Ok (acc ++ [y])) [].

(** [d[key]]. *)
Definition getitem (d : Record) (key : string) : result value :=
  match d !! key with
  | Some v => Ok v
  | None => Raise (KeyError key)
  end.

(** [d.get(key, default)]. *)
Definition dict_get (d : Record) (key : string) (default : value) : value :=
  match d !! key with
  | Some v => v
  | None => default
  end.

(** [key in d]. *)
Definition has_key (d : Record) (key : string) : bool :=
  match d !! key with
  | Some _ => true
  | None => false
  end.

(** ** Validation *)

Definition validate_keys (data : list Record) (required_keys : list string)
    (target : string) : result unit :=
  for_in data (fun d _ =>
    let missing_keys :=
      List.filter (fun key => negb (has_key d key)) required_keys in
    match missing_keys with
    | _ :: _ =>
        Raise (MissingKeys missing_keys target (dict_get d "id" (VStr "Unknown")))
    | [] => Ok tt
    end) tt.

Definition validate_images (images : list Record) : result unit :=
  let required_keys := ["id"; "file_name"; "width"; "height"] in
  validate_keys images required_keys "image".

Definition validate_categories (categories : list Record) : result unit :=
  let required_keys := ["id"; "name"; "supercategory"] in
  validate_keys categories required_keys "category".

Definition validate_annotations (annotations : list Record) : result unit :=
  let required_keys :=
    ["id"; "image_id"; "category_id"; "bbox"; "area"; "segmentation"] in
  validate_keys annotations required_keys "annotation".

(** ** Filters *)

Inductive FilterType : Type := INCLUSION | EXCLUSION.

(** Modelled from the spec: [pycocoedit/filter.py] (the classes [BaseFilter]
    and [Filters] and the name-based filters) is not among the sources.  A
    filter carries its kind and a single decision function over one record,
    which may raise. *)
Record BaseFilter : Type := {
  filter_type : FilterType;
  apply : Record -> result bool
}.

(** Modelled from the spec: [Filters] of [filter.py], an ordered sequence of
    inclusion filters and a separate ordered sequence of exclusion
    filters. *)
Record Filters : Type := {
  include_filters : list BaseFilter;
  exclude_filters : list BaseFilter
}.

(** Modelled from the spec: [Filters()] of [filter.py], both sequences
    empty. *)
Definition Filters_new : Filters :=
  {| include_filters := []; exclude_filters := [] |}.

(** Modelled from the spec: [Filters.add] of [filter.py] appends the filter
    to the sequence matching its kind. *)
Definition Filters_add (self : Filters) (filter : BaseFilter) : Filters :=
  match filter_type filter with
  | INCLUSION =>
      {| include_filters := include_filters self ++ [filter];
         exclude_filters := exclude_filters self |}
  | EXCLUSION =>
      {| include_filters := include_filters self;
         exclude_filters := exclude_filters self ++ [filter] |}
  end.

(** Modelled from the spec: the name-based image filter of [filter.py]
    matches when the record's [file_name] field is a member of the
    configured names (a record without the field is not matched). *)
Definition ImageNameFilter (kind : FilterType) (file_names : list string)
  : BaseFilter :=
  {| filter_type := kind;
     apply := fun data =>
       Ok (match data !! "file_name" with
           | Some v => py_in v (map VStr file_names)
           | None => false
           end) |}.

Definition ImageNameIncludeFilter := ImageNameFilter INCLUSION.
Definition ImageNameExcludeFilter := ImageNameFilter EXCLUSION.

(** Modelled from the spec: the name-based category filter of [filter.py]
    matches when the record's [name] field is a member of the configured
    names. *)
Definition CategoryNameFilter (kind : FilterType) (category_names : list string)
  : BaseFilter :=
  {| filter_type := kind;
     apply := fun data =>
       Ok (match data !! "name" with
           | Some v => py_in v (map VStr category_names)
           | None => false
           end) |}.

Definition CategoryIncludeFilter := CategoryNameFilter INCLUSION.
Definition CategoryExcludeFilter := CategoryNameFilter EXCLUSION.

(** ** The editor *)

(** The document an editor is loaded from, and the aggregate [correct]
    returns: a [dict] with the keys [info], [licenses], [images],
    [categories] and [annotations]; [None] is an absent key. *)
Record Document : Type := {
  doc_info : option Record;
  doc_licenses : option (list Record);
  doc_images : option (list Record);
  doc_categories : option (list Record);
  doc_annotations : option (list Record)
}.

(** The attributes of a [CocoEditor]. *)
Record CocoEditor : Type := {
  images : list Record;
  annotations : list Record;
  categories : list Record;
  licenses : list Record;
  info : Record;
  image_filters : Filters;
  category_filters : Filters;
  annotation_filters : Filters;
  licenses_filters : Filters;
  filter_applied : bool
}.

(** [self.x = v], one function per attribute. *)
Definition set_images (v : list Record) (self : CocoEditor) : CocoEditor :=
  {| images := v; annotations := annotations self;
     categories := categories self; licenses := licenses self;
     info := info self; image_filters := image_filters self;
     category_filters := category_filters self;
     annotation_filters := annotation_filters self;
     licenses_filters := licenses_filters self;
     filter_applied := filter_applied self |}.

Definition set_annotations (v : list Record) (self : CocoEditor) : CocoEditor :=
  {| images := images self; annotations := v;
     categories := categories self; licenses := licenses self;
     info := info self; image_filters := image_filters self;
     category_filters := category_filters self;
     annotation_filters := annotation_filters self;
     licenses_filters := licenses_filters self;
     filter_applied := filter_applied self |}.

Definition set_categories (v : list Record) (self : CocoEditor) : CocoEditor :=
  {| images := images self; annotations := annotations self;
     categories := v; licenses := licenses self;
     info := info self; image_filters := image_filters self;
     category_filters := category_filters self;
     annotation_filters := annotation_filters self;
     licenses_filters := licenses_filters self;
     filter_applied := filter_applied self |}.

Definition set_licenses (v : list Record) (self : CocoEditor) : CocoEditor :=
  {| images := images self; annotations := annotations self;
     categories := categories self; licenses := v;
     info := info self; image_filters := image_filters self;
     category_filters := category_filters self;
     annotation_filters := annotation_filters self;
     licenses_filters := licenses_filters self;
     filter_applied := filter_applied self |}.

Definition set_info (v : Record) (self : CocoEditor) : CocoEditor :=
  {| images := images self; annotations := annotations self;
     categories := categories self; licenses := licenses self;
     info := v; image_filters := image_filters self;
     category_filters := category_filters self;
     annotation_filters := annotation_filters self;
     licenses_filters := licenses_filters self;
     filter_applied := filter_applied self |}.

Definition set_image_filters (v : Filters) (self : CocoEditor) : CocoEditor :=
  {| images := images self; annotations := annotations self;
     categories := categories self; licenses := licenses self;
     info := info self; image_filters := v;
     category_filters := category_filters self;
     annotation_filters := annotation_filters self;
     licenses_filters := licenses_filters self;
     filter_applied := filter_applied self |}.

Definition set_category_filters (v : Filters) (self : CocoEditor) : CocoEditor :=
  {| images := images self; annotations := annotations self;
     categories := categories self; licenses := licenses self;
     info := info self; image_filters := image_filters self;
     category_filters := v;
     annotation_filters := annotation_filters self;
     licenses_filters := licenses_filters self;
     filter_applied := filter_applied self |}.

Definition set_annotation_filters (v : Filters) (self : CocoEditor) : CocoEditor :=
  {| images := images self; annotations := annotations self;
     categories := categories self; licenses := licenses self;
     info := info self; image_filters := image_filters self;
     category_filters := category_filters self;
     annotation_filters := v;
     licenses_filters := licenses_filters self;
     filter_applied := filter_applied self |}.

Definition set_licenses_filters (v : Filters) (self : CocoEditor) : CocoEditor :=
  {| images := images self; annotations := annotations self;
     categories := categories self; licenses := licenses self;
     info := info self; image_filters := image_filters self;
     category_filters := category_filters self;
     annotation_filters := annotation_filters self;
     licenses_filters := v;
     filter_applied := filter_applied self |}.

Definition set_filter_applied (v : bool) (self : CocoEditor) : CocoEditor :=
  {| images := images self; annotations := annotations self;
     categories := categories self; licenses := licenses self;
     info := info self; image_filters := image_filters self;
     category_filters := category_filters self;
     annotation_filters := annotation_filters self;
     licenses_filters := licenses_filters self;
     filter_applied := v |}.

(** ** The monad of methods *)

(** A method takes the editor [self] and yields a value or an exception
    together with the editor as the method left it. *)
Definition M (A : Type) : Type := CocoEditor -> result A * CocoEditor.

#[global] Instance M_ret : MRet M := fun A a self => (Ok a, self).
#[global] Instance M_bind : MBind M := fun A B f m self =>
  match m self with
  | (Ok a, self') => f a self'
  | (Raise e, self') => (Raise e, self')
  end.

(** Read [self]. *)
Definition get_self : M CocoEditor := fun self => (Ok self, self).
(** Assign attributes of [self]. *)
Definition assign (f : CocoEditor -> CocoEditor) : M unit :=
  fun self => (Ok tt, f self).
(** Run a local computation. *)
Definition lift {A : Type} (r : result A) : M A := fun self => (r, self).

(** [for x in l: body(x)] in a method. *)
Fixpoint for_each {A : Type} (l : list A) (body : A -> M unit) : M unit :=
  match l with
  | [] => mret tt
  | x :: rest => body x;; for_each rest body
  end.

(** ** Methods of [CocoEditor] *)

(** [dataset[key]] on the loaded document. *)
Definition doc_getitem {A : Type} (field : option A) (key : string) : result A :=
  match field with
  | Some v => Ok v
  | None => Raise (KeyError key)
  end.

(** [CocoEditor(annotation)] for an in-memory document.  The deep copy is
    the identity on immutable values.  A constructor that raises yields no
    editor. *)
Definition __init__ (annotation : Document) : result CocoEditor :=
  let dataset := annotation in
  images ← doc_getitem (doc_images dataset) "images";
  annotations ← doc_getitem (doc_annotations dataset) "annotations";
  categories ← doc_getitem (doc_categories dataset) "categories";
  let licenses := default [] (doc_licenses dataset) in
  let info := default ∅ (doc_info dataset) in
  validate_images images;;
  validate_categories categories;;
  validate_annotations annotations;;
  Ok {| images := images; annotations := annotations;
        categories := categories; licenses := licenses; info := info;
        image_filters := Filters_new; category_filters := Filters_new;
        annotation_filters := Filters_new; licenses_filters := Filters_new;
        filter_applied := false |}.

Definition __add_filter (filter : BaseFilter) (target_type : string) : M unit :=
  if negb (existsb (String.eqb target_type)
             ["image"; "category"; "annotation"; "license"])
  then lift (Raise (ValueError
         "target_type should be one of [image, category, annotation, license]"))
  else
    (if String.eqb target_type "image"
     then assign (fun self =>
            set_image_filters (Filters_add (image_filters self) filter) self)
     else mret tt);;
    (if String.eqb target_type "category"
     then assign (fun self =>
            set_category_filters (Filters_add (category_filters self) filter) self)
     else mret tt);;
    (if String.eqb target_type "annotation"
     then assign (fun self =>
            set_annotation_filters (Filters_add (annotation_filters self) filter) self)
     else mret tt);;
    (if String.eqb target_type "license"
     then assign (fun self =>
            set_licenses_filters (Filters_add (licenses_filters self) filter) self)
     else mret tt).

Definition add_file_name_filter (include_files exclude_files : option (list string))
  : M unit :=
  match include_files with
  | Some names => __add_filter (ImageNameIncludeFilter names) "image"
  | None => mret tt
  end;;
  match exclude_files with
  | Some names => __add_filter (ImageNameExcludeFilter names) "image"
  | None => mret tt
  end.

Definition add_category_filter (include_names exclude_names : option (list string))
  : M unit :=
  match include_names with
  | Some names => __add_filter (CategoryIncludeFilter names) "category"
  | None => mret tt
  end;;
  match exclude_names with
  | Some names => __add_filter (CategoryExcludeFilter names) "category"
  | None => mret tt
  end.

Definition add_custom_filter (custom_filter : BaseFilter)
    (target_type : option string) : M unit :=
  match target_type with
  | None => lift (Raise (ValueError
      "target_type should be one of [image, category, annotation, license]"))
  | Some target_type => __add_filter custom_filter target_type
  end.

(** The inner loop of the inclusion stage, for one record [d]:
    [for include_filter in include_filters:
       if include_filter.apply(d): new_dicts.append(d); break]. *)
Fixpoint include_loop (include_filters : list BaseFilter) (d : Record)
    (new_dicts : list Record) : result (list Record) :=
  match include_filters with
  | [] => Ok new_dicts
  | include_filter :: rest =>
      b ← apply include_filter d;
      if (b : bool) then Ok (new_dicts ++ [d]) else include_loop rest d new_dicts
  end.

(** The inner loop of the exclusion stage, for one record [d]:
    [for exclude_filter in exclude_filters:
       if not exclude_filter.apply(d): new_dicts.append(d); break]. *)
Fixpoint exclude_loop (exclude_filters : list BaseFilter) (d : Record)
    (new_dicts : list Record) : result (list Record) :=
  match exclude_filters with
  | [] => Ok new_dicts
  | exclude_filter :: rest =>
      b ← apply exclude_filter d;
      if negb b then Ok (new_dicts ++ [d]) else exclude_loop rest d new_dicts
  end.

(** The local function [update] of [apply_filter]. *)
Definition update (index : nat) (new_data : list Record) : M unit :=
  (if Nat.eqb index 0 then assign (set_images new_data) else mret tt);;
  (if Nat.eqb index 1 then assign (set_categories new_data) else mret tt);;
  (if Nat.eqb index 2 then assign (set_annotations new_data) else mret tt);;
  (if Nat.eqb index 3 then assign (set_licenses new_data) else mret tt).

(** The loop body of [apply_filter], for the index [i].  [targets] and
    [all_filters] are built once, before the loop, from the attributes
    [self] has on entry: [targets[i]] stays the list that was the collection
    when the method was called, whatever [update] assigns to the attribute
    afterwards. *)
Definition inclusion_stage (targets : list (list Record)) (i : nat)
    (include_filters : list BaseFilter) : M unit :=
  if negb (Nat.eqb (length include_filters) 0) then
    new_dicts ← lift (for_in (nth i targets []) (include_loop include_filters) []);
    update i new_dicts
  else mret tt.

Definition exclusion_stage (targets : list (list Record)) (i : nat)
    (exclude_filters : list BaseFilter) : M unit :=
  if negb (Nat.eqb (length exclude_filters) 0) then
    new_dicts ← lift (for_in (nth i targets []) (exclude_loop exclude_filters) []);
    update i new_dicts
  else mret tt.

Definition apply_filter_iteration (targets : list (list Record))
    (all_filters : list Filters) (i : nat) : M unit :=
  let filters := nth i all_filters Filters_new in
  let include_filters := include_filters filters in
  let exclude_filters := exclude_filters filters in
  inclusion_stage targets i include_filters;;
  exclusion_stage targets i exclude_filters.

Definition apply_filter : M unit :=
  self ← get_self;
  let targets : list (list Record) :=
    [images self; categories self; annotations self; licenses self] in
  let all_filters : list Filters :=
    [image_filters self; category_filters self;
     annotation_filters self; licenses_filters self] in
  for_each (seq 0 (length targets)) (apply_filter_iteration targets all_filters);;
  assign (set_filter_applied true).

Definition reset (annotation : Document) : M unit :=
  let dataset := annotation in
  v ← lift (doc_getitem (doc_images dataset) "images");
  assign (set_images v);;
  v ← lift (doc_getitem (doc_annotations dataset) "annotations");
  assign (set_annotations v);;
  v ← lift (doc_getitem (doc_categories dataset) "categories");
  assign (set_categories v);;
  assign (set_licenses (default [] (doc_licenses dataset)));;
  assign (set_info (default ∅ (doc_info dataset)));;
  self ← get_self;
  lift (validate_images (images self));;
  lift (validate_categories (categories self));;
  lift (validate_annotations (annotations self));;
  assign (set_image_filters Filters_new);;
  assign (set_category_filters Filters_new);;
  assign (set_annotation_filters Filters_new);;
  assign (set_licenses_filters Filters_new);;
  assign (set_filter_applied false).

(** [for i in range(len(l)): x = l[i]; acc = body(x, acc)]. *)
Definition for_range_index {A S : Type} (l : list A) (body : A -> S -> result S)
    (s : S) : result S :=
  for_in (seq 0 (length l)) (fun i acc =>
    match l !! i with
    | Some x => body x acc
    | None => Raise IndexError
    end) s.

(** The four commented paragraphs of [correct], in the order of the
    source. *)

(** [# Remove annotations with category_id not in categories] *)
Definition correct_annotations_category : M unit :=
  self ← get_self;
  cat_ids ← lift (list_comp (fun cat => getitem cat "id") (categories self));
  _annotations ← lift (for_range_index (annotations self) (fun ann _annotations =>
    _cat_id ← getitem ann "category_id";
    cid ← getitem ann "category_id";
    Ok (if py_in cid cat_ids then _annotations ++ [ann] else _annotations)) []);
  assign (set_annotations _annotations).

(** [# Remove annotations with no images] *)
Definition correct_annotations_image : M unit :=
  self ← get_self;
  img_ids ← lift (list_comp (fun img => getitem img "id") (images self));
  _annotations ← lift (for_range_index (annotations self) (fun ann _annotations =>
    _img_id ← getitem ann "image_id";
    iid ← getitem ann "image_id";
    Ok (if py_in iid img_ids then _annotations ++ [ann] else _annotations)) []);
  assign (set_annotations _annotations).

(** [# Remove images with no annotations] *)
Definition correct_images : M unit :=
  self ← get_self;
  img_ids ← lift (list_comp (fun ann => getitem ann "image_id") (annotations self));
  _images ← lift (for_in (images self) (fun img _images =>
    id ← getitem img "id";
    Ok (if py_in id img_ids then _images ++ [img] else _images)) []);
  assign (set_images _images).

(** [# Remove categories with no annotations] *)
Definition correct_categories : M unit :=
  self ← get_self;
  cat_ids ← lift (list_comp (fun ann => getitem ann "category_id") (annotations self));
  _categories ← lift (for_in (categories self) (fun cat _categories =>
    id ← getitem cat "id";
    Ok (if py_in id cat_ids then _categories ++ [cat] else _categories)) []);
  assign (set_categories _categories).

(** The returned [dict]. *)
Definition aggregate (self : CocoEditor) : Document :=
  {| doc_info := Some (info self);
     doc_licenses := Some (licenses self);
     doc_images := Some (images self);
     doc_categories := Some (categories self);
     doc_annotations := Some (annotations self) |}.

Definition correct (correct_image correct_category : bool) : M Document :=
  self ← get_self;
  (if negb (filter_applied self) then apply_filter else mret tt);;
  correct_annotations_category;;
  correct_annotations_image;;
  (if correct_image then correct_images else mret tt);;
  (if correct_category then correct_categories else mret tt);;
  self ← get_self;
  mret (aggregate self).

(** ** The dataset of the test suite *)

Module Example.

(** [dict] literals. *)
Definition dict (l : list (string * value)) : Record := list_to_map l.

Definition image (name : string) (id size : Z) (year : string) : Record :=
  dict [("date_captured", VStr year); ("file_name", VStr name);
        ("id", VInt id); ("height", VInt size); ("width", VInt size)].

Definition annotation (id : Z) (size : Z) : Record :=
  dict [("id", VInt id); ("image_id", VInt id); ("category_id", VInt id);
        ("segmentation", VList []); ("area", VInt size);
        ("bbox", VList [VInt 0; VInt 0; VInt size; VInt size]);
        ("iscrowd", VInt 0)].

Definition category (id : Z) (name : string) : Record :=
  dict [("id", VInt id); ("name", VStr name);
        ("supercategory", VStr "category")].

Definition image0 := image "image0.jpg" 1 100 "2020".
Definition image1 := image "image1.jpg" 2 200 "2020".
Definition image2 := image "image2.jpg" 3 300 "2021".
Definition annotation1 := annotation 1 100.
Definition annotation2 := annotation 2 200.
Definition annotation3 := annotation 3 300.
Definition category0 := category 1 "category0".
Definition category1 := category 2 "category1".
Definition category2 := category 3 "category2".

Definition info : Record :=
  dict [("description", VStr "COCO 2020 Dataset");
        ("url", VStr "http://cocodataset.org");
        ("version", VStr "1.0"); ("year", VInt 2020);
        ("contributor", VStr "COCO Consortium");
        ("date_created", VStr "2020/12/10")].
Definition licenses : list Record :=
  [dict [("id", VInt 1); ("name", VStr "License"); ("url", VStr "")]].
Definition images : list Record := [image0; image1; image2].
Definition annotations : list Record := [annotation1; annotation2; annotation3].
Definition categories : list Record := [category0; category1; category2].

Definition dataset : Document :=
  {| doc_info := Some info; doc_licenses := Some licenses;
     doc_images := Some images; doc_categories := Some categories;
     doc_annotations := Some annotations |}.

(** The editor [CocoEditor(dataset)]: the five data attributes, four empty
    Filter Sets and [filter_applied = False]. *)
Definition editor : CocoEditor :=
  Build_CocoEditor images annotations categories licenses info
    Filters_new Filters_new Filters_new Filters_new false.

End Example.

(** A call [correct(...)] with keyword arguments, [None] an omitted one:
    [correct_image] defaults to [True] and [correct_category] to
    [False]. *)
Definition correct_call (correct_image correct_category : option bool)
  : M Document :=
  correct (default true correct_image) (default false correct_category).

(** ** Sequences of calls *)

(** A call a client makes on an editor it holds. *)
Inductive call : Type :=
| AddFileNameFilter (include_files exclude_files : option (list string))
| AddCategoryFilter (include_names exclude_names : option (list string))
| AddCustomFilter (custom_filter : BaseFilter) (target_type : option string)
| ApplyFilter
| Correct (correct_image correct_category : bool)
| Reset (annotation : Document).

Definition is_registration (c : call) : bool :=
  match c with
  | AddFileNameFilter _ _ | AddCategoryFilter _ _ | AddCustomFilter _ _ => true
  | _ => false
  end.

Definition run_call (c : call) : M unit :=
  match c with
  | AddFileNameFilter i e => add_file_name_filter i e
  | AddCategoryFilter i e => add_category_filter i e
  | AddCustomFilter f t => add_custom_filter f t
  | ApplyFilter => apply_filter
  | Correct ci cc => correct ci cc;; mret tt
  | Reset a => reset a
  end.

(** The editor after a sequence of calls; a call that raises leaves the
    editor as it was when the exception was raised and the client goes
    on. *)
Definition run_calls (cs : list call) (self : CocoEditor) : CocoEditor :=
  fold_left (fun self c => snd (run_call c self)) cs self.

(** ** Vocabulary of the specification *)

(** The four collections, in the order [apply_filter] visits them. *)
Inductive TargetType : Type := IMAGE | CATEGORY | ANNOTATION | LICENSE.

Definition all_targets : list TargetType := [IMAGE; CATEGORY; ANNOTATION; LICENSE].

Definition index (t : TargetType) : nat :=
  match t with IMAGE => 0 | CATEGORY => 1 | ANNOTATION => 2 | LICENSE => 3 end.

Definition collection (t : TargetType) (self : CocoEditor) : list Record :=
  match t with
  | IMAGE => images self
  | CATEGORY => categories self
  | ANNOTATION => annotations self
  | LICENSE => licenses self
  end.

Definition set_collection (t : TargetType) (v : list Record) (self : CocoEditor)
  : CocoEditor :=
  match t with
  | IMAGE => set_images v self
  | CATEGORY => set_categories v self
  | ANNOTATION => set_annotations v self
  | LICENSE => set_licenses v self
  end.

Definition filters_of (t : TargetType) (self : CocoEditor) : Filters :=
  match t with
  | IMAGE => image_filters self
  | CATEGORY => category_filters self
  | ANNOTATION => annotation_filters self
  | LICENSE => licenses_filters self
  end.

(** The filter [f] returns [b] for the record [d] (and does not raise). *)
Definition returns (b : bool) (d : Record) (f : BaseFilter) : bool :=
  match apply f d with
  | Ok b' => Bool.eqb b b'
  | Raise _ => false
  end.

(** At least one inclusion filter returns true for [d]. *)
Definition included (include_filters : list BaseFilter) (d : Record) : bool :=
  existsb (returns true d) include_filters.

(** Every exclusion filter returns true for [d]. *)
Definition excluded (exclude_filters : list BaseFilter) (d : Record) : bool :=
  forallb (returns true d) exclude_filters.

(** At least one exclusion filter returns false for [d]. *)
Definition spared (exclude_filters : list BaseFilter) (d : Record) : bool :=
  existsb (returns false d) exclude_filters.

(** No filter of the sequence raises on a record of the list. *)
Definition never_raise (fs : list BaseFilter) (l : list Record) : Prop :=
  ∀ f d, In f fs → In d l → ∃ b, apply f d = Ok b.

(** No decision function registered with the editor raises on a record of
    its collection. *)
Definition filters_never_raise (self : CocoEditor) : Prop :=
  ∀ t, never_raise (include_filters (filters_of t self)) (collection t self)
     ∧ never_raise (exclude_filters (filters_of t self)) (collection t self).

(** The same, as a check that can be run. *)
Definition is_ok {A : Type} (r : result A) : bool :=
  match r with Ok _ => true | Raise _ => false end.

Definition never_raiseb (fs : list BaseFilter) (l : list Record) : bool :=
  forallb (fun f => forallb (fun d => is_ok (apply f d)) l) fs.

Definition filters_never_raiseb (self : CocoEditor) : bool :=
  forallb (fun t =>
    never_raiseb (include_filters (filters_of t self)) (collection t self)
    && never_raiseb (exclude_filters (filters_of t self)) (collection t self))
    [IMAGE; CATEGORY; ANNOTATION; LICENSE].

(** What one iteration of [apply_filter] does with a collection: how it
    ends, and the last list it assigned to the attribute ([None] when it
    assigned nothing). *)
Definition run_stages (fs : Filters) (target : list Record)
  : result unit * option (list Record) :=
  match include_filters fs, exclude_filters fs with
  | [], [] => (Ok tt, None)
  | [], _ :: _ =>
      match for_in target (exclude_loop (exclude_filters fs)) [] with
      | Ok kept => (Ok tt, Some kept)
      | Raise e => (Raise e, None)
      end
  | _ :: _, [] =>
      match for_in target (include_loop (include_filters fs)) [] with
      | Ok kept => (Ok tt, Some kept)
      | Raise e => (Raise e, None)
      end
  | _ :: _, _ :: _ =>
      match for_in target (include_loop (include_filters fs)) [] with
      | Ok kept =>
          match for_in target (exclude_loop (exclude_filters fs)) [] with
          | Ok kept' => (Ok tt, Some kept')
          | Raise e => (Raise e, Some kept)
          end
      | Raise e => (Raise e, None)
      end
  end.

(** The assignment an iteration left behind. *)
Definition commit (t : TargetType) (c : option (list Record)) (self : CocoEditor)
  : CocoEditor :=
  match c with
  | Some v => set_collection t v self
  | None => self
  end.

(** The required fields the record lacks, in the order they are
    required. *)
Definition missing (required_keys : list string) (d : Record) : list string :=
  List.filter (fun key => negb (has_key d key)) required_keys.

(** The record carries every required field. *)
Definition complete (required_keys : list string) (d : Record) : Prop :=
  ∀ key, In key required_keys → is_Some (d !! key).

(** Records for [test_validate_keys_failure]. *)
Definition data_item_1 : Record :=
  list_to_map [("id", VInt 1); ("name", VStr "Data 1"); ("category", VStr "A")].
Definition data_item_2 : Record :=
  list_to_map [("id", VInt 2); ("category", VStr "B")].
Definition data_item_no_id : Record :=
  list_to_map [("category", VStr "B")].

(** The editor with other Filter Sets. *)
Definition with_filters (fi fc fa fl : Filters) (self : CocoEditor) : CocoEditor :=
  set_licenses_filters fl
    (set_annotation_filters fa
       (set_category_filters fc (set_image_filters fi self))).

(** The two editors hold the same data. *)
Definition same_data (a b : CocoEditor) : Prop :=
  images a = images b ∧ annotations a = annotations b
  ∧ categories a = categories b ∧ licenses a = licenses b ∧ info a = info b.

(** The values of the field [key] in the records that have it. *)
Definition fields (key : string) (l : list Record) : list value :=
  omap (fun d : Record => d !! key) l.

Definition ids (l : list Record) : list value := fields "id" l.

(** The records whose field [key] is among [vs]. *)
Definition keep_by (key : string) (vs : list value) (l : list Record)
  : list Record :=
  List.filter (fun d : Record =>
    match d !! key with
    | Some v => py_in v vs
    | None => false
    end) l.

(** The steps of the correction pass, in the words of the specification. *)

(** Step 1: drop annotations whose [category_id] is not present among the
    current categories' ids. *)
Definition drop_annotations_without_category (cats anns : list Record) :=
  keep_by "category_id" (ids cats) anns.

(** Step 2: drop annotations whose [image_id] is not present among the
    current images' ids. *)
Definition drop_annotations_without_image (imgs anns : list Record) :=
  keep_by "image_id" (ids imgs) anns.

(** Step 3: drop images whose id is referenced by no surviving
    annotation. *)
Definition drop_unreferenced_images (anns imgs : list Record) :=
  keep_by "id" (fields "image_id" anns) imgs.

(** Step 4: drop categories whose id is referenced by no surviving
    annotation. *)
Definition drop_unreferenced_categories (anns cats : list Record) :=
  keep_by "id" (fields "category_id" anns) cats.

(** The editor after the four steps, taken in that order. *)
Definition corrected (correct_image correct_category : bool) (self : CocoEditor)
  : CocoEditor :=
  let anns1 :=
    drop_annotations_without_category (categories self) (annotations self) in
  let anns2 := drop_annotations_without_image (images self) anns1 in
  let imgs :=
    if correct_image then drop_unreferenced_images anns2 (images self)
    else images self in
  let cats :=
    if correct_category then drop_unreferenced_categories anns2 (categories self)
    else categories self in
  set_categories cats (set_images imgs (set_annotations anns2 self)).

(** What [correct] runs after the filters have been applied. *)
Definition correction_pass (correct_image correct_category : bool) : M Document :=
  correct_annotations_category;;
  correct_annotations_image;;
  (if correct_image then correct_images else mret tt);;
  (if correct_category then correct_categories else mret tt);;
  self ← get_self;
  mret (aggregate self).

(** Every record of the list has the field. *)
Definition all_have (key : string) (l : list Record) : Prop :=
  Forall (fun d : Record => is_Some (d !! key)) l.

(** The records carry the fields the correction pass reads. *)
Definition keyed (self : CocoEditor) : Prop :=
  all_have "id" (images self) ∧ all_have "id" (categories self)
  ∧ all_have "category_id" (annotations self)
  ∧ all_have "image_id" (annotations self).

(** The same, as a check that can be run. *)
Definition keyedb (self : CocoEditor) : bool :=
  forallb (fun d => has_key d "id") (images self)
  && forallb (fun d => has_key d "id") (categories self)
  && forallb (fun d => has_key d "category_id") (annotations self)
  && forallb (fun d => has_key d "image_id") (annotations self).

(** The annotation refers to a record of [l] through the field [key]. *)
Definition refers_into (key : string) (l : list Record) (ann : Record) : Prop :=
  ∃ v d w, ann !! key = Some v ∧ In d l ∧ d !! "id" = Some w ∧ py_eq v w = true.

(** Referential integrity of the held collections. *)
Definition referential_integrity (self : CocoEditor) : Prop :=
  ∀ ann, In ann (annotations self) →
    refers_into "image_id" (images self) ann
    ∧ refers_into "category_id" (categories self) ann.

(** ** Editors built from the test dataset *)

Module Scenario.
Import Example.

(** The custom filters of the test suite: [data["area"] > bound]. *)
Definition AreaFilter (kind : FilterType) (bound : Z) : BaseFilter :=
  {| filter_type := kind;
     apply := fun data =>
       area ← getitem data "area";
       match area with
       | VInt n => Ok (Z.ltb bound n)
       | VBool b => Ok (Z.ltb bound (Z.b2z b))
       | _ => Raise (Raised "TypeError")
       end |}.

(** A decision function that raises. *)
Definition RaisingFilter (kind : FilterType) : BaseFilter :=
  {| filter_type := kind; apply := fun _ => Raise (Raised "RuntimeError") |}.

(** Image-name inclusion of [image0.jpg] and [image1.jpg] and image-name
    exclusion of [image1.jpg], both registered before any
    [apply_filter]. *)
Definition both_kinds : CocoEditor :=
  snd (add_file_name_filter (Some ["image0.jpg"; "image1.jpg"])
                            (Some ["image1.jpg"]) editor).

(** Two exclusion filters on annotations: [area > 250] and [area > 100]. *)
Definition two_exclusions : CocoEditor :=
  run_calls [AddCustomFilter (AreaFilter EXCLUSION 250) (Some "annotation");
             AddCustomFilter (AreaFilter EXCLUSION 100) (Some "annotation")]
            editor.

(** Two inclusion filters: [area > 250] on annotations and the image
    name [image0.jpg]. *)
Definition two_inclusions : CocoEditor :=
  run_calls [AddCustomFilter (AreaFilter INCLUSION 250) (Some "annotation");
             AddFileNameFilter (Some ["image0.jpg"]) None]
            editor.

(** An image-name inclusion filter, and a category filter that raises. *)
Definition raising : CocoEditor :=
  run_calls [AddFileNameFilter (Some ["image0.jpg"]) None;
             AddCustomFilter (RaisingFilter INCLUSION) (Some "category")]
            editor.

(** [apply_filter] with no filter registered, and an image-name inclusion
    filter registered afterwards. *)
Definition registered_late : CocoEditor :=
  run_calls [ApplyFilter; AddFileNameFilter (Some ["image0.jpg"]) None] editor.

(** The editor of [test_add_file_name_filter] before [correct]: the
    inclusion filter applied, then the exclusion filter registered and
    applied. *)
Definition filtered : CocoEditor :=
  run_calls [AddFileNameFilter (Some ["image0.jpg"; "image1.jpg"]) None;
             ApplyFilter;
             AddFileNameFilter None (Some ["image1.jpg"]);
             ApplyFilter] editor.

End Scenario.

(** The iterations of [apply_filter] over the collections [ts], the
    filters and the lists iterated over being those [entry] had when the
    method was called. *)
Fixpoint run_targets (ts : list TargetType) (entry self : CocoEditor)
  : result unit * CocoEditor :=
  match ts with
  | [] => (Ok tt, self)
  | t :: rest =>
      match run_stages (filters_of t entry) (collection t entry) with
      | (Ok _, c) => run_targets rest entry (commit t c self)
      | (Raise e, c) => (Raise e, commit t c self)
      end
  end.

(** ** Where a decision function raises *)

(** The inner loop over the filters [fs] for the record [d], which stops at
    the first filter that returns [stop] ([true] in the inclusion stage,
    [false] in the exclusion stage), reaches a decision function that raises
    [e]: some filter raises [e] on [d] and every filter before it returned
    the other answer. *)
Definition loop_raises (stop : bool) (fs : list BaseFilter) (d : Record)
    (e : exn) : Prop :=
  ∃ fpre f fpost,
    fs = fpre ++ f :: fpost
    ∧ (∀ f', In f' fpre → apply f' d = Ok (negb stop))
    ∧ apply f d = Raise e.

(** The inner loop for [d] ends without calling a decision function that
    raises: every filter returns the answer that does not stop the loop, or
    some filter returns [stop] and every filter before it returned the
    other answer. *)
Definition loop_returns (stop : bool) (fs : list BaseFilter) (d : Record) : Prop :=
  (∀ f, In f fs → apply f d = Ok (negb stop))
  ∨ ∃ fpre f fpost,
      fs = fpre ++ f :: fpost
      ∧ (∀ f', In f' fpre → apply f' d = Ok (negb stop))
      ∧ apply f d = Ok stop.

(** A stage over the list [l] reaches a decision function that raises [e]:
    the inner loop raises [e] for some record, and ended without raising
    for every record before it. *)
Definition pass_raises (stop : bool) (fs : list BaseFilter) (l : list Record)
    (e : exn) : Prop :=
  ∃ pre d post,
    l = pre ++ d :: post
    ∧ (∀ d', In d' pre → loop_returns stop fs d')
    ∧ loop_raises stop fs d e.

(** A stage over the list [l] calls no decision function that raises. *)
Definition pass_returns (stop : bool) (fs : list BaseFilter) (l : list Record)
  : Prop :=
  ∀ d, In d l → loop_returns stop fs d.

(** A decision function raises [e] in the given stage of the collection
    [t]: in its inclusion stage, or in its exclusion stage, the inclusion
    stage (if there are inclusion filters) having called none that
    raises.  Both stages go over the list the collection was when
    [apply_filter] was called. *)
Definition raised_in (stage : FilterType) (t : TargetType) (self : CocoEditor)
    (e : exn) : Prop :=
  match stage with
  | INCLUSION =>
      pass_raises true (include_filters (filters_of t self)) (collection t self) e
  | EXCLUSION =>
      pass_returns true (include_filters (filters_of t self)) (collection t self)
      ∧ pass_raises false (exclude_filters (filters_of t self))
                    (collection t self) e
  end.

(** What the collection whose filter raised is left as: as it was, unless
    the exception came from its exclusion stage after an inclusion stage,
    which has then assigned the records matched by at least one inclusion
    filter. *)
Definition left_by_failing_stage (stage : FilterType) (fs : Filters)
    (l : list Record) : list Record :=
  match stage, include_filters fs with
  | EXCLUSION, _ :: _ => List.filter (included (include_filters fs)) l
  | _, _ => l
  end.

(** An editor with an image-name inclusion filter for [image0.jpg] and an
    image exclusion filter that raises, and one with an image inclusion
    filter that raises and an image-name exclusion filter. *)
Definition exclusion_raising : CocoEditor :=
  run_calls [AddFileNameFilter (Some ["image0.jpg"]) None;
             AddCustomFilter (Scenario.RaisingFilter EXCLUSION) (Some "image")]
            Example.editor.

Definition inclusion_raising : CocoEditor :=
  run_calls [AddCustomFilter (Scenario.RaisingFilter INCLUSION) (Some "image");
             AddFileNameFilter None (Some ["image0.jpg"])]
            Example.editor.

(** ** Vocabulary for further properties *)

(** The string naming a collection in [add_custom_filter]. *)
Definition target_name (t : TargetType) : string :=
  match t with
  | IMAGE => "image"
  | CATEGORY => "category"
  | ANNOTATION => "annotation"
  | LICENSE => "license"
  end.

(** The message of the [ValueError] of the registration methods. *)
Definition invalid_target_message : string :=
  "target_type should be one of [image, category, annotation, license]".

(** The editor [a] was obtained from [b] by removing records only: every
    collection of [a] is a subsequence of the one of [b], and [info] and the
    Filter Sets are those of [b]. *)
Definition shrinks (a b : CocoEditor) : Prop :=
  (∀ t, sublist (collection t a) (collection t b))
  ∧ info a = info b
  ∧ ∀ t, filters_of t a = filters_of t b.

(** The three collections pass the validation of the constructor. *)
Definition validated (self : CocoEditor) : Prop :=
  validate_images (images self) = Ok tt
  ∧ validate_categories (categories self) = Ok tt
  ∧ validate_annotations (annotations self) = Ok tt.

(** Every [reset] of the sequence is given a document the constructor
    accepts. *)
Definition resets_accepted (calls : list call) : Prop :=
  Forall (fun c => match c with
                   | Reset a => is_ok (__init__ a) = true
                   | _ => True
                   end) calls.

(** Some annotation of [anns] refers to the record through [key]: its
    [key] field is equal to the record's id. *)
Definition referenced_by (key : string) (anns : list Record) (d : Record) : Prop :=
  ∃ w ann v, d !! "id" = Some w ∧ In ann anns ∧ ann !! key = Some v
             ∧ py_eq v w = true.

(** Editors that the constructor would not build, for the error paths of
    [correct]: a category without [id], and an image without [id]. *)
Definition category_without_id : CocoEditor :=
  Build_CocoEditor Example.images Example.annotations
    [Example.category0; data_item_no_id] Example.licenses Example.info
    Filters_new Filters_new Filters_new Filters_new true.

Definition image_without_id : CocoEditor :=
  Build_CocoEditor [Example.image0; data_item_no_id] Example.annotations
    [Example.category0] Example.licenses Example.info
    Filters_new Filters_new Filters_new Filters_new true.

(** A document whose images fail validation. *)
Definition invalid_document : Document :=
  {| doc_info := None; doc_licenses := None;
     doc_images := Some [data_item_no_id];
     doc_categories := Some Example.categories;
     doc_annotations := Some Example.annotations |}.

(** * Properties *)

(** ** Python equality *)

Section ValueInduction.
Variable P : value -> Prop.
Hypothesis HNone : P VNone.
Hypothesis HBool : ∀ b, P (VBool b).
Hypothesis HInt : ∀ n, P (VInt n).
Hypothesis HStr : ∀ s, P (VStr s).
Hypothesis HList : ∀ l, Forall P l → P (VList l).

Fixpoint value_nested_ind (v : value) : P v :=
  match v with
  | VNone => HNone
  | VBool b => HBool b
  | VInt n => HInt n
  | VStr s => HStr s
  | VList l =>
      HList l ((fix all (l : list value) : Forall P l :=
                  match l with
                  | [] => @List.Forall_nil value P
                  | x :: l' => @List.Forall_cons value P x l' (value_nested_ind x) (all l')
                  end) l)
  end.
End ValueInduction.

Lemma py_eq_sym (x y : value) : py_eq x y = py_eq y x.
Proof.
  revert y. induction x as [| a | m | s | l IH] using value_nested_ind;
    intros [| b | n | t | l']; simpl; try reflexivity.
  - destruct a, b; reflexivity.
  - apply Z.eqb_sym.
  - apply Z.eqb_sym.
  - apply Z.eqb_sym.
  - apply String.eqb_sym.
  - revert l'. induction IH as [| x l Hx _ IHl]; intros [| y l']; try reflexivity.
    rewrite Hx, IHl. reflexivity.
Qed.

Lemma py_in_true (x : value) (l : list value) :
  py_in x l = true ↔ ∃ e, In e l ∧ py_eq x e = true.
Proof.
  unfold py_in. rewrite existsb_exists.
  split; intros (e & He & Heq); exists e; (split; [exact He |]);
    rewrite py_eq_sym; exact Heq.
Qed.

(** ** Loops *)

(** A loop whose body cannot raise on the elements of the list returns. *)
Lemma for_in_returns {A S : Type} (l : list A) (body : A -> S -> result S) :
  (∀ x s, In x l → ∃ s', body x s = Ok s') →
  ∀ s, ∃ s', for_in l body s = Ok s'.
Proof.
  induction l as [| x l IH]; intros Hbody s; simpl; [eauto |].
  destruct (Hbody x s) as [s' ->]; [left; reflexivity |]. simpl.
  apply IH. intros y s0 Hy. apply Hbody. right. exact Hy.
Qed.

(** A loop that appends the elements it selects builds the filtered list. *)
Lemma for_in_selects {A : Type} (l : list A) (p : A -> bool)
    (body : A -> list A -> result (list A)) :
  (∀ x acc r, In x l → body x acc = Ok r → r = if p x then acc ++ [x] else acc) →
  ∀ acc r, for_in l body acc = Ok r → r = acc ++ List.filter p l.
Proof.
  induction l as [| x l IH]; intros Hbody acc r; simpl.
  - intros [= <-]. symmetry. apply app_nil_r.
  - destruct (body x acc) as [acc' | e] eqn:Hx; simpl; [| discriminate].
    intros Hr. apply IH in Hr; [| intros y a r' Hy; apply Hbody; right; exact Hy].
    apply Hbody in Hx; [| left; reflexivity]. subst acc' r.
    destruct (p x); [rewrite <- app_assoc |]; reflexivity.
Qed.

(** Iterating over the indices of a list is iterating over the list. *)
Lemma for_range_index_for_in {A S : Type} (l : list A)
    (body : A -> S -> result S) (s : S) :
  for_range_index l body s = for_in l body s.
Proof.
  unfold for_range_index.
  enough (H : ∀ (pre : list A) s,
    for_in (seq (length pre) (length l)) (fun i acc =>
      match (pre ++ l) !! i with
      | Some x => body x acc
      | None => Raise IndexError
      end) s = for_in l body s) by exact (H [] s).
  clear s. induction l as [| x l IH]; intros pre s; simpl; [reflexivity |].
  rewrite list_lookup_middle by reflexivity.
  destruct (body x s) as [s' | e]; simpl; [| reflexivity].
  specialize (IH (pre ++ [x]) s').
  rewrite length_app, Nat.add_1_r, <- app_assoc in IH. exact IH.
Qed.

(** A list comprehension over [d[key]] returns the fields, or raises
    [KeyError] when a record lacks the key. *)
Lemma list_comp_getitem (key : string) (l : list Record) :
  list_comp (fun d => getitem d key) l =
  if forallb (fun d => has_key d key) l then Ok (fields key l)
  else Raise (KeyError key).
Proof.
  unfold list_comp.
  enough (H : ∀ acc,
    for_in l (fun x acc => y ← getitem x key; Ok (acc ++ [y])) acc =
    if forallb (fun d => has_key d key) l then Ok (acc ++ fields key l)
    else Raise (KeyError key)) by exact (H []).
  induction l as [| d l IH]; intros acc; simpl.
  - rewrite app_nil_r. reflexivity.
  - unfold getitem, has_key, fields. simpl. destruct (d !! key) as [v |]; simpl.
    + rewrite IH. destruct (forallb _ l); [| reflexivity].
      unfold fields. rewrite <- app_assoc. reflexivity.
    + reflexivity.
Qed.

Lemma forallb_has_key (key : string) (l : list Record) :
  forallb (fun d => has_key d key) l = true ↔ all_have key l.
Proof.
  unfold all_have. rewrite forallb_forall, Forall_forall.
  split; intros H d Hd.
  - apply list_elem_of_In in Hd. specialize (H d Hd). unfold has_key in H.
    destruct (d !! key); [eauto | discriminate].
  - apply list_elem_of_In in Hd. specialize (H d Hd). unfold has_key.
    destruct H as [v ->]. reflexivity.
Qed.

(** ** The inner loops of [apply_filter] *)

Lemma include_loop_selects (fs : list BaseFilter) (d : Record) (acc r : list Record) :
  include_loop fs d acc = Ok r → r = if included fs d then acc ++ [d] else acc.
Proof.
  unfold included. induction fs as [| f fs IH]; simpl.
  - intros [= <-]. reflexivity.
  - unfold returns at 1. destruct (apply f d) as [[|] | e]; simpl.
    + intros [= <-]. reflexivity.
    + exact IH.
    + discriminate.
Qed.

Lemma exclude_loop_selects (fs : list BaseFilter) (d : Record) (acc r : list Record) :
  exclude_loop fs d acc = Ok r → r = if spared fs d then acc ++ [d] else acc.
Proof.
  unfold spared. induction fs as [| f fs IH]; simpl.
  - intros [= <-]. reflexivity.
  - unfold returns at 1. destruct (apply f d) as [[|] | e]; simpl.
    + exact IH.
    + intros [= <-]. reflexivity.
    + discriminate.
Qed.

(** When the exclusion loop returns, the record was spared exactly when not
    every filter returned true. *)
Lemma exclude_loop_spared (fs : list BaseFilter) (d : Record) (acc r : list Record) :
  exclude_loop fs d acc = Ok r → spared fs d = negb (excluded fs d).
Proof.
  unfold spared, excluded. induction fs as [| f fs IH]; simpl; [reflexivity |].
  unfold returns at 1 3. destruct (apply f d) as [[|] | e]; simpl.
  - exact IH.
  - reflexivity.
  - discriminate.
Qed.

Lemma include_loop_returns (fs : list BaseFilter) (d : Record) (acc : list Record) :
  (∀ f, In f fs → ∃ b, apply f d = Ok b) → ∃ r, include_loop fs d acc = Ok r.
Proof.
  induction fs as [| f fs IH]; simpl; intros H; [eauto |].
  destruct (H f) as [b ->]; [left; reflexivity |]. simpl.
  destruct b; [eauto |]. apply IH. intros g Hg. apply H. right. exact Hg.
Qed.

Lemma exclude_loop_returns (fs : list BaseFilter) (d : Record) (acc : list Record) :
  (∀ f, In f fs → ∃ b, apply f d = Ok b) → ∃ r, exclude_loop fs d acc = Ok r.
Proof.
  induction fs as [| f fs IH]; simpl; intros H; [eauto |].
  destruct (H f) as [b ->]; [left; reflexivity |]. simpl.
  destruct b; simpl; [| eauto]. apply IH. intros g Hg. apply H. right. exact Hg.
Qed.

Lemma inclusion_pass (fs : list BaseFilter) (l r : list Record) :
  for_in l (include_loop fs) [] = Ok r → r = List.filter (included fs) l.
Proof.
  intros H. apply for_in_selects with (p := included fs) in H; [exact H |].
  intros d acc r' _. apply include_loop_selects.
Qed.

Lemma exclusion_pass (fs : list BaseFilter) (l r : list Record) :
  for_in l (exclude_loop fs) [] = Ok r →
  r = List.filter (fun d => negb (excluded fs d)) l.
Proof.
  revert r.
  enough (H : ∀ acc r, for_in l (exclude_loop fs) acc = Ok r →
    r = acc ++ List.filter (fun d => negb (excluded fs d)) l) by exact (H []).
  induction l as [| d l IH]; intros acc r; simpl.
  - intros [= <-]. symmetry. apply app_nil_r.
  - destruct (exclude_loop fs d acc) as [acc' | e] eqn:Hd; simpl; [| discriminate].
    intros Hr. apply IH in Hr. subst r.
    rewrite <- (exclude_loop_spared _ _ _ _ Hd).
    apply exclude_loop_selects in Hd. subst acc'.
    destruct (spared fs d); [rewrite <- app_assoc |]; reflexivity.
Qed.

Lemma inclusion_pass_returns (fs : list BaseFilter) (l : list Record) :
  never_raise fs l → ∃ r, for_in l (include_loop fs) [] = Ok r.
Proof.
  intros H. apply for_in_returns. intros d acc Hd.
  apply include_loop_returns. intros f Hf. exact (H f d Hf Hd).
Qed.

Lemma exclusion_pass_returns (fs : list BaseFilter) (l : list Record) :
  never_raise fs l → ∃ r, for_in l (exclude_loop fs) [] = Ok r.
Proof.
  intros H. apply for_in_returns. intros d acc Hd.
  apply exclude_loop_returns. intros f Hf. exact (H f d Hf Hd).
Qed.

(** ** [apply_filter], one collection at a time *)

Lemma iteration_run_stages (t : TargetType) (targets : list (list Record))
    (all_filters : list Filters) (self : CocoEditor) :
  apply_filter_iteration targets all_filters (index t) self =
  let r := run_stages (nth (index t) all_filters Filters_new)
                      (nth (index t) targets []) in
  (fst r, commit t (snd r) self).
Proof.
  unfold apply_filter_iteration, inclusion_stage, exclusion_stage, run_stages.
  destruct (include_filters _) as [| fi incl], (exclude_filters _) as [| fe excl];
    cbn [length Nat.eqb negb].
  - reflexivity.
  - unfold mbind, M_bind, lift, mret, M_ret. cbn beta iota.
    destruct (for_in _ _ _); [| reflexivity]. destruct t; reflexivity.
  - unfold mbind, M_bind, lift, mret, M_ret. cbn beta iota.
    destruct (for_in _ _ _); [| reflexivity]. destruct t; reflexivity.
  - unfold mbind, M_bind, lift. cbn beta iota.
    destruct (for_in (nth (index t) targets []) (include_loop (fi :: incl)) []);
      [| reflexivity].
    destruct (for_in (nth (index t) targets []) (exclude_loop (fe :: excl)) []);
      destruct t; reflexivity.
Qed.

Lemma for_each_run_targets (ts : list TargetType) (entry self : CocoEditor) :
  for_each (map index ts)
    (apply_filter_iteration
       [images entry; categories entry; annotations entry; licenses entry]
       [image_filters entry; category_filters entry;
        annotation_filters entry; licenses_filters entry]) self =
  run_targets ts entry self.
Proof.
  revert self. induction ts as [| t ts IH]; intros self; [reflexivity |].
  cbn [map for_each run_targets]. unfold mbind at 1, M_bind at 1.
  rewrite iteration_run_stages. cbn zeta.
  replace (nth (index t) _ Filters_new) with (filters_of t entry)
    by (destruct t; reflexivity).
  replace (nth (index t) _ []) with (collection t entry)
    by (destruct t; reflexivity).
  destruct (run_stages _ _) as [[[] | e] c]; cbn [fst snd]; [apply IH | reflexivity].
Qed.

Lemma apply_filter_run_targets (self : CocoEditor) :
  apply_filter self =
  match run_targets all_targets self self with
  | (Ok _, self') => (Ok tt, set_filter_applied true self')
  | (Raise e, self') => (Raise e, self')
  end.
Proof.
  unfold apply_filter, mbind, M_bind, get_self.
  change (seq 0 (length _)) with (map index all_targets).
  rewrite for_each_run_targets.
  destruct (run_targets _ _ _) as [[[] | e] s]; reflexivity.
Qed.

Lemma run_stages_returns (fs : Filters) (l : list Record) :
  never_raise (include_filters fs) l → never_raise (exclude_filters fs) l →
  fst (run_stages fs l) = Ok tt.
Proof.
  intros Hi He. unfold run_stages.
  destruct (inclusion_pass_returns _ _ Hi) as [ri Hri].
  destruct (exclusion_pass_returns _ _ He) as [re Hre].
  rewrite Hri, Hre.
  destruct (include_filters fs), (exclude_filters fs); reflexivity.
Qed.

(** What a completed iteration assigned, by the kinds of filters
    registered. *)
Lemma run_stages_ok (fs : Filters) (l : list Record) (c : option (list Record)) :
  run_stages fs l = (Ok tt, c) →
  c = match include_filters fs, exclude_filters fs with
      | [], [] => None
      | _ :: _, [] => Some (List.filter (included (include_filters fs)) l)
      | _, _ :: _ =>
          Some (List.filter (fun d => negb (excluded (exclude_filters fs) d)) l)
      end.
Proof.
  unfold run_stages.
  destruct (include_filters fs) as [| fi incl] eqn:Hi,
           (exclude_filters fs) as [| fe excl] eqn:He.
  - intros [= <-]. reflexivity.
  - destruct (for_in l (exclude_loop _) []) as [r |] eqn:Hr; [| discriminate].
    intros [= <-]. apply exclusion_pass in Hr. subst r. reflexivity.
  - destruct (for_in l (include_loop _) []) as [r |] eqn:Hr; [| discriminate].
    intros [= <-]. apply inclusion_pass in Hr. subst r. reflexivity.
  - destruct (for_in l (include_loop _) []) as [r |]; [| discriminate].
    destruct (for_in l (exclude_loop _) []) as [r' |] eqn:Hr; [| discriminate].
    intros [= <-]. apply exclusion_pass in Hr. subst r'. reflexivity.
Qed.

(** What an iteration that raised had assigned. *)
Lemma run_stages_raise (fs : Filters) (l : list Record) (e : exn)
    (c : option (list Record)) :
  run_stages fs l = (Raise e, c) →
  c = None
  ∨ (include_filters fs ≠ [] ∧ exclude_filters fs ≠ []
     ∧ c = Some (List.filter (included (include_filters fs)) l)
     ∧ for_in l (exclude_loop (exclude_filters fs)) [] = Raise e).
Proof.
  unfold run_stages.
  destruct (include_filters fs) as [| fi incl] eqn:Hi,
           (exclude_filters fs) as [| fe excl] eqn:He.
  - discriminate.
  - destruct (for_in l (exclude_loop _) []); [discriminate |].
    intros [= <- <-]. left. reflexivity.
  - destruct (for_in l (include_loop _) []); [discriminate |].
    intros [= <- <-]. left. reflexivity.
  - destruct (for_in l (include_loop _) []) as [r |] eqn:Hr.
    + destruct (for_in l (exclude_loop _) []) as [r' | e'] eqn:Hr'; [discriminate |].
      intros [= <- <-]. right. apply inclusion_pass in Hr. subst r.
      repeat split; congruence.
    + intros [= <- <-]. left. reflexivity.
Qed.

(** ** [apply_filter] as a whole *)

Lemma commit_frame (t : TargetType) (c : option (list Record)) (self : CocoEditor) :
  info (commit t c self) = info self
  ∧ filter_applied (commit t c self) = filter_applied self
  ∧ ∀ t', filters_of t' (commit t c self) = filters_of t' self.
Proof. destruct c; destruct t; repeat split; intros []; reflexivity. Qed.

Lemma apply_filter_ok (self st' : CocoEditor) :
  apply_filter self = (Ok tt, st') →
  (∀ t, ∃ c, run_stages (filters_of t self) (collection t self) = (Ok tt, c)
           ∧ collection t st' = default (collection t self) c)
  ∧ info st' = info self
  ∧ (∀ t, filters_of t st' = filters_of t self)
  ∧ filter_applied st' = true.
Proof.
  rewrite apply_filter_run_targets. unfold all_targets, run_targets.
  destruct (run_stages (filters_of IMAGE self) _) as [[[] | e0] c0] eqn:H0;
    [| discriminate].
  destruct (run_stages (filters_of CATEGORY self) _) as [[[] | e1] c1] eqn:H1;
    [| discriminate].
  destruct (run_stages (filters_of ANNOTATION self) _) as [[[] | e2] c2] eqn:H2;
    [| discriminate].
  destruct (run_stages (filters_of LICENSE self) _) as [[[] | e3] c3] eqn:H3;
    [| discriminate].
  intros [= <-]. repeat split.
  - intros []; eexists; (split; [eassumption |]);
      destruct c0, c1, c2, c3; reflexivity.
  - destruct c0, c1, c2, c3; reflexivity.
  - intros []; destruct c0, c1, c2, c3; reflexivity.
Qed.

Lemma apply_filter_returns (self : CocoEditor) :
  (∀ t, fst (run_stages (filters_of t self) (collection t self)) = Ok tt) →
  ∃ st', apply_filter self = (Ok tt, st').
Proof.
  intros H. rewrite apply_filter_run_targets. unfold all_targets, run_targets.
  pose proof (H IMAGE) as H0. pose proof (H CATEGORY) as H1.
  pose proof (H ANNOTATION) as H2. pose proof (H LICENSE) as H3.
  destruct (run_stages (filters_of IMAGE self) _) as [r0 c0].
  destruct (run_stages (filters_of CATEGORY self) _) as [r1 c1].
  destruct (run_stages (filters_of ANNOTATION self) _) as [r2 c2].
  destruct (run_stages (filters_of LICENSE self) _) as [r3 c3].
  cbn [fst] in *. subst. eauto.
Qed.

Lemma apply_filter_total (self : CocoEditor) :
  filters_never_raise self → ∃ st', apply_filter self = (Ok tt, st').
Proof.
  intros H. apply apply_filter_returns. intros t.
  destruct (H t) as [Hi He]. apply run_stages_returns; assumption.
Qed.

(** A filtered collection is drawn from the collection. *)
Lemma apply_filter_incl (P : Record -> Prop) (t : TargetType) (self st' : CocoEditor) :
  apply_filter self = (Ok tt, st') →
  Forall P (collection t self) → Forall P (collection t st').
Proof.
  intros H HP. apply apply_filter_ok in H as [H _].
  destruct (H t) as (c & Hc & ->). apply run_stages_ok in Hc. subst c.
  destruct (include_filters _), (exclude_filters _); cbn [default];
    try assumption; rewrite Forall_forall in *; intros d Hd;
    apply list_elem_of_In, filter_In in Hd as [Hd _];
    apply HP, list_elem_of_In; exact Hd.
Qed.

(** ** Inclusion and exclusion filtering *)

Lemma excluded_true (fs : list BaseFilter) (d : Record) :
  excluded fs d = true ↔ ∀ f, In f fs → apply f d = Ok true.
Proof.
  unfold excluded. rewrite forallb_forall.
  split; intros H f Hf; specialize (H f Hf); unfold returns in *.
  - destruct (apply f d) as [[|] | e]; try discriminate. reflexivity.
  - rewrite H. reflexivity.
Qed.

Lemma included_true (fs : list BaseFilter) (d : Record) :
  included fs d = true ↔ ∃ f, In f fs ∧ apply f d = Ok true.
Proof.
  unfold included. rewrite existsb_exists.
  split; intros (f & Hf & H); exists f; (split; [exact Hf |]); unfold returns in *.
  - destruct (apply f d) as [[|] | e]; try discriminate. reflexivity.
  - rewrite H. reflexivity.
Qed.

(** With filters of both kinds registered for a collection, one call
    leaves the records of the collection as it was on entry that not every
    exclusion filter matches, whatever the inclusion filters decide. *)
Lemma apply_filter_both_kinds (t : TargetType) (self st' : CocoEditor) :
  include_filters (filters_of t self) ≠ [] →
  exclude_filters (filters_of t self) ≠ [] →
  apply_filter self = (Ok tt, st') →
  collection t st' =
  List.filter (fun d => negb (excluded (exclude_filters (filters_of t self)) d))
              (collection t self).
Proof.
  intros Hi He H. apply apply_filter_ok in H as [H _].
  destruct (H t) as (c & Hc & ->). apply run_stages_ok in Hc. subst c.
  destruct (include_filters _), (exclude_filters _); try congruence. reflexivity.
Qed.

(** C1, evaluated on the scenario of the specification.  With the
    image-name inclusion filter for image0.jpg and image1.jpg and the
    image-name exclusion filter for image1.jpg both registered on the
    3-image dataset, one call to [apply_filter] returns and leaves
    images = [image0; image2]: image2, which no inclusion filter matches, is
    kept, because the exclusion stage iterates over the list the collection
    was on entry and its result replaces the result of the inclusion stage.
    The records that match an inclusion filter and fail an exclusion filter
    are [image0] alone. *)
Theorem apply_filter_both_kinds_on_test_dataset :
  let self := Scenario.both_kinds in
  length (include_filters (image_filters self)) = 1%nat
  ∧ length (exclude_filters (image_filters self)) = 1%nat
  ∧ fst (apply_filter self) = Ok tt
  ∧ images (snd (apply_filter self)) = [Example.image0; Example.image2]
  ∧ List.filter (fun d => included (include_filters (image_filters self)) d
                          && spared (exclude_filters (image_filters self)) d)
                (images self) = [Example.image0]
  ∧ images (snd (apply_filter self)) ≠ [Example.image0].
Proof.
  cbv zeta. repeat split; try (vm_compute; reflexivity).
  assert (H : images (snd (apply_filter Scenario.both_kinds))
              = [Example.image0; Example.image2]) by (vm_compute; reflexivity).
  rewrite H. intros [=].
Qed.

(** C2.  For a collection with no inclusion filter and at least one
    exclusion filter registered, whose decision functions do not raise,
    [apply_filter] returns and the collection becomes the list of its
    records that not every exclusion filter returns true for: a record is
    dropped if and only if every exclusion filter returns true for it, and a
    record for which some exclusion filter returns false is kept. *)
Theorem exclusion_only_filtering (t : TargetType) (self : CocoEditor) :
  include_filters (filters_of t self) = [] →
  exclude_filters (filters_of t self) ≠ [] →
  filters_never_raise self →
  ∃ st', apply_filter self = (Ok tt, st')
    ∧ collection t st' =
      List.filter (fun d => negb (excluded (exclude_filters (filters_of t self)) d))
                  (collection t self)
    ∧ ∀ d, In d (collection t self) →
        (¬ In d (collection t st') ↔
         ∀ f, In f (exclude_filters (filters_of t self)) → apply f d = Ok true)
        ∧ ((∃ f, In f (exclude_filters (filters_of t self)) ∧ apply f d = Ok false) →
           In d (collection t st')).
Proof.
  intros Hi He Hnr. destruct (apply_filter_total self Hnr) as [st' Hst].
  exists st'. split; [exact Hst |].
  assert (Hc : collection t st' =
    List.filter (fun d => negb (excluded (exclude_filters (filters_of t self)) d))
                (collection t self)).
  { apply apply_filter_ok in Hst as [H _].
    destruct (H t) as (c & Hc & ->). apply run_stages_ok in Hc. subst c.
    rewrite Hi. destruct (exclude_filters _); [congruence | reflexivity]. }
  split; [exact Hc |]. intros d Hd. rewrite Hc. split.
  - rewrite filter_In, <- excluded_true. split.
    + intros H. destruct (excluded _ d); [reflexivity |].
      exfalso. apply H. split; [exact Hd | reflexivity].
    + intros -> [_ [=]].
  - intros (f & Hf & Hfd). apply filter_In. split; [exact Hd |].
    destruct (excluded _ d) eqn:Hex; [| reflexivity].
    rewrite excluded_true in Hex. rewrite (Hex f Hf) in Hfd. discriminate.
Qed.

Lemma never_raiseb_sound (fs : list BaseFilter) (l : list Record) :
  never_raiseb fs l = true → never_raise fs l.
Proof.
  unfold never_raiseb. rewrite forallb_forall. intros H f d Hf Hd.
  specialize (H f Hf). rewrite forallb_forall in H. specialize (H d Hd).
  destruct (apply f d) as [b | e]; [eauto | discriminate].
Qed.

Lemma filters_never_raiseb_sound (self : CocoEditor) :
  filters_never_raiseb self = true → filters_never_raise self.
Proof.
  unfold filters_never_raiseb. rewrite forallb_forall. intros H t.
  assert (Ht : In t [IMAGE; CATEGORY; ANNOTATION; LICENSE])
    by (destruct t; simpl; tauto).
  apply H, andb_prop in Ht as [Hi He].
  split; apply never_raiseb_sound; assumption.
Qed.

Lemma exclusion_only_filtering_witness :
  ∃ st', apply_filter Scenario.two_exclusions = (Ok tt, st')
    ∧ annotations st' = [Example.annotation1; Example.annotation2].
Proof.
  destruct (exclusion_only_filtering ANNOTATION Scenario.two_exclusions)
    as (st' & Hst & Hc & _).
  - reflexivity.
  - vm_compute. discriminate.
  - apply filters_never_raiseb_sound. vm_compute. reflexivity.
  - exists st'. split; [exact Hst |].
    change (annotations st') with (collection ANNOTATION st'). rewrite Hc.
    vm_compute. reflexivity.
Defined.

(** C8.  For a collection with no exclusion filter registered, when no
    decision function raises, [apply_filter] returns and the collection
    becomes the list of its records for which at least one inclusion filter
    returns true; with no inclusion filter either, the collection is
    unchanged.  The inclusion stage with an empty inclusion sequence
    returns without assigning anything. *)
Theorem inclusion_only_filtering (t : TargetType) (self : CocoEditor) :
  exclude_filters (filters_of t self) = [] →
  filters_never_raise self →
  (∃ st', apply_filter self = (Ok tt, st')
     ∧ collection t st' =
       match include_filters (filters_of t self) with
       | [] => collection t self
       | _ :: _ =>
           List.filter (included (include_filters (filters_of t self)))
                       (collection t self)
       end
     ∧ (include_filters (filters_of t self) ≠ [] →
        ∀ d, In d (collection t st') ↔
             In d (collection t self)
             ∧ ∃ f, In f (include_filters (filters_of t self))
                    ∧ apply f d = Ok true))
  ∧ ∀ targets i, inclusion_stage targets i [] self = (Ok tt, self).
Proof.
  intros He Hnr. split; [| reflexivity].
  destruct (apply_filter_total self Hnr) as [st' Hst].
  exists st'. split; [exact Hst |].
  apply apply_filter_ok in Hst as [H _].
  destruct (H t) as (c & Hc & ->). apply run_stages_ok in Hc. subst c.
  rewrite He. destruct (include_filters _) as [| fi incl] eqn:Hi; cbn [default].
  - split; [reflexivity |]. congruence.
  - split; [reflexivity |]. intros _ d. unfold id.
    rewrite filter_In, included_true. reflexivity.
Qed.

Lemma inclusion_only_filtering_witness :
  ∃ st', apply_filter Scenario.two_inclusions = (Ok tt, st')
    ∧ annotations st' = [Example.annotation3]
    ∧ images st' = [Example.image0]
    ∧ categories st' = Example.categories.
Proof.
  assert (Hnr : filters_never_raise Scenario.two_inclusions)
    by (apply filters_never_raiseb_sound; vm_compute; reflexivity).
  destruct (inclusion_only_filtering ANNOTATION Scenario.two_inclusions eq_refl Hnr)
    as [(st' & Hst & Hc & _) _].
  destruct (inclusion_only_filtering IMAGE Scenario.two_inclusions eq_refl Hnr)
    as [(st1 & Hst1 & Hc1 & _) _].
  destruct (inclusion_only_filtering CATEGORY Scenario.two_inclusions eq_refl Hnr)
    as [(st2 & Hst2 & Hc2 & _) _].
  rewrite Hst in Hst1, Hst2.
  injection Hst1 as <-. injection Hst2 as <-.
  exists st'. split; [exact Hst |]. split; [| split].
  - change (annotations st') with (collection ANNOTATION st'). rewrite Hc.
    vm_compute. reflexivity.
  - change (images st') with (collection IMAGE st'). rewrite Hc1.
    vm_compute. reflexivity.
  - change (categories st') with (collection CATEGORY st'). rewrite Hc2.
    vm_compute. reflexivity.
Defined.

(** ** Exceptions in [apply_filter] *)

(** The assignments of the iterations before the one that raises stay. *)
Lemma apply_filter_raise_keeps_assignment :
  ¬ (∀ e st', apply_filter Scenario.raising = (Raise e, st') →
       images st' = images Scenario.raising
       ∧ categories st' = categories Scenario.raising
       ∧ annotations st' = annotations Scenario.raising
       ∧ licenses st' = licenses Scenario.raising).
Proof.
  intros H.
  destruct (H (Raised "RuntimeError") (snd (apply_filter Scenario.raising)))
    as [Himg _]; [vm_compute; reflexivity |].
  assert (H1 : images (snd (apply_filter Scenario.raising)) = [Example.image0])
    by (vm_compute; reflexivity).
  assert (H2 : images Scenario.raising
               = [Example.image0; Example.image1; Example.image2])
    by (vm_compute; reflexivity).
  rewrite H1, H2 in Himg. discriminate Himg.
Qed.

(** *** The stages, in terms of the decision functions *)

Section StoppingLoop.
Variable stop : bool.
Variable loop : list BaseFilter -> Record -> list Record -> result (list Record).
Hypothesis loop_nil : ∀ d acc, loop [] d acc = Ok acc.
Hypothesis loop_cons : ∀ f fs d acc,
  loop (f :: fs) d acc =
  match apply f d with
  | Ok b => if Bool.eqb b stop then Ok (acc ++ [d]) else loop fs d acc
  | Raise e => Raise e
  end.

Lemma loop_raises_cons (f : BaseFilter) (fs : list BaseFilter) (d : Record) (e : exn) :
  loop_raises stop (f :: fs) d e
  ↔ apply f d = Raise e ∨ (apply f d = Ok (negb stop) ∧ loop_raises stop fs d e).
Proof.
  unfold loop_raises. split.
  - intros ([| f' fpre] & g & fpost & Hfs & Hpre & Hg); injection Hfs as <- ->.
    + left. exact Hg.
    + right. split; [apply Hpre; left; reflexivity |].
      exists fpre, g, fpost. repeat split; [| exact Hg].
      intros h Hh. apply Hpre. right. exact Hh.
  - intros [Hf | [Hf (fpre & g & fpost & -> & Hpre & Hg)]].
    + exists [], f, fs. repeat split; [intros h [] | exact Hf].
    + exists (f :: fpre), g, fpost. repeat split; [| exact Hg].
      intros h [<- | Hh]; [exact Hf | apply Hpre, Hh].
Qed.

Lemma loop_returns_cons (f : BaseFilter) (fs : list BaseFilter) (d : Record) :
  loop_returns stop (f :: fs) d
  ↔ apply f d = Ok stop ∨ (apply f d = Ok (negb stop) ∧ loop_returns stop fs d).
Proof.
  unfold loop_returns. split.
  - intros [Hall | ([| f' fpre] & g & fpost & Hfs & Hpre & Hg)].
    + right. split; [apply Hall; left; reflexivity |].
      left. intros h Hh. apply Hall. right. exact Hh.
    + injection Hfs as <- ->. left. exact Hg.
    + injection Hfs as <- ->. right. split; [apply Hpre; left; reflexivity |].
      right. exists fpre, g, fpost. repeat split; [| exact Hg].
      intros h Hh. apply Hpre. right. exact Hh.
  - intros [Hf | [Hf [Hall | (fpre & g & fpost & -> & Hpre & Hg)]]].
    + right. exists [], f, fs. repeat split; [intros h [] | exact Hf].
    + left. intros h [<- | Hh]; [exact Hf | apply Hall, Hh].
    + right. exists (f :: fpre), g, fpost. repeat split; [| exact Hg].
      intros h [<- | Hh]; [exact Hf | apply Hpre, Hh].
Qed.

Lemma loop_raise_iff (fs : list BaseFilter) (d : Record) (acc : list Record)
    (e : exn) :
  loop fs d acc = Raise e ↔ loop_raises stop fs d e.
Proof.
  induction fs as [| f fs IH].
  - rewrite loop_nil. split; [discriminate |].
    intros ([| ? ?] & ? & ? & H & _); discriminate H.
  - rewrite loop_cons, loop_raises_cons.
    destruct (apply f d) as [b | e'].
    + destruct (Bool.eqb b stop) eqn:Hb.
      * apply Bool.eqb_prop in Hb. subst b. split; [discriminate |].
        intros [H | [H _]]; [discriminate H |].
        injection H as H. destruct stop; discriminate H.
      * rewrite IH. split; [intros H; right; split; [| exact H] | intros [H | [_ H]]].
        -- f_equal. destruct b, stop; try reflexivity; discriminate Hb.
        -- discriminate H.
        -- exact H.
    + split.
      * intros [= ->]. left. reflexivity.
      * intros [[= ->] | [H _]]; [reflexivity | discriminate H].
Qed.

Lemma loop_ok_iff (fs : list BaseFilter) (d : Record) (acc : list Record) :
  (∃ r, loop fs d acc = Ok r) ↔ loop_returns stop fs d.
Proof.
  induction fs as [| f fs IH].
  - rewrite loop_nil. split; [| eauto]. intros _. left. intros f [].
  - rewrite loop_cons, loop_returns_cons.
    destruct (apply f d) as [b | e'].
    + destruct (Bool.eqb b stop) eqn:Hb.
      * apply Bool.eqb_prop in Hb. subst b. split; [| eauto].
        intros _. left. reflexivity.
      * rewrite IH. split; [intros H; right; split; [| exact H] | intros [H | [_ H]]].
        -- f_equal. destruct b, stop; try reflexivity; discriminate Hb.
        -- injection H as ->. rewrite Bool.eqb_reflx in Hb. discriminate Hb.
        -- exact H.
    + split; [intros [r H]; discriminate H |].
      intros [H | [H _]]; discriminate H.
Qed.

Lemma pass_raise_iff (fs : list BaseFilter) (l : list Record) (acc : list Record)
    (e : exn) :
  for_in l (loop fs) acc = Raise e ↔ pass_raises stop fs l e.
Proof.
  revert acc. induction l as [| x l IH]; intros acc.
  - split; [discriminate |]. intros ([| ? ?] & ? & ? & H & _); discriminate H.
  - cbn [for_in]. destruct (loop fs x acc) as [acc' | e'] eqn:Hx; cbn [mbind result_bind].
    + assert (Hret : loop_returns stop fs x) by (apply (loop_ok_iff fs x acc); eauto).
      rewrite IH. unfold pass_raises. split.
      * intros (pre & d & post & -> & Hpre & Hd).
        exists (x :: pre), d, post. repeat split; [| exact Hd].
        intros d' [<- | Hd']; [exact Hret | apply Hpre, Hd'].
      * intros ([| x' pre] & d & post & Hl & Hpre & Hd); injection Hl as <- ->.
        -- apply (loop_raise_iff fs x acc) in Hd. congruence.
        -- exists pre, d, post. repeat split; [| exact Hd].
           intros d' Hd'. apply Hpre. right. exact Hd'.
    + assert (Hr : loop_raises stop fs x e') by (apply (loop_raise_iff fs x acc), Hx).
      split.
      * intros [= <-]. exists [], x, l. repeat split; [intros d' [] | exact Hr].
      * intros ([| x' pre] & d & post & Hl & Hpre & Hd); injection Hl as <- ->.
        -- apply (loop_raise_iff fs x acc) in Hd. congruence.
        -- assert (Hret : loop_returns stop fs x) by (apply Hpre; left; reflexivity).
           apply (loop_ok_iff fs x acc) in Hret as [r Hr']. congruence.
Qed.

Lemma pass_ok_iff (fs : list BaseFilter) (l : list Record) (acc : list Record) :
  (∃ r, for_in l (loop fs) acc = Ok r) ↔ pass_returns stop fs l.
Proof.
  unfold pass_returns. revert acc. induction l as [| x l IH]; intros acc.
  - split; [intros _ d [] | cbn; eauto].
  - cbn [for_in]. destruct (loop fs x acc) as [acc' | e'] eqn:Hx; cbn [mbind result_bind].
    + assert (Hret : loop_returns stop fs x) by (apply (loop_ok_iff fs x acc); eauto).
      rewrite IH. split.
      * intros H d [<- | Hd]; [exact Hret | apply H, Hd].
      * intros H d Hd. apply H. right. exact Hd.
    + split; [intros [r H]; discriminate H |]. intros H.
      assert (Hret : loop_returns stop fs x) by (apply H; left; reflexivity).
      apply (loop_ok_iff fs x acc) in Hret as [r Hr']. congruence.
Qed.

End StoppingLoop.

Lemma include_loop_cons (f : BaseFilter) (fs : list BaseFilter) (d : Record)
    (acc : list Record) :
  include_loop (f :: fs) d acc =
  match apply f d with
  | Ok b => if Bool.eqb b true then Ok (acc ++ [d]) else include_loop fs d acc
  | Raise e => Raise e
  end.
Proof. cbn [include_loop]. destruct (apply f d) as [[|] | e]; reflexivity. Qed.

Lemma exclude_loop_cons (f : BaseFilter) (fs : list BaseFilter) (d : Record)
    (acc : list Record) :
  exclude_loop (f :: fs) d acc =
  match apply f d with
  | Ok b => if Bool.eqb b false then Ok (acc ++ [d]) else exclude_loop fs d acc
  | Raise e => Raise e
  end.
Proof. cbn [exclude_loop]. destruct (apply f d) as [[|] | e]; reflexivity. Qed.

(** The inclusion stage raises [e] exactly when it reaches a decision
    function that raises [e]. *)
Lemma inclusion_pass_raises (fs : list BaseFilter) (l : list Record) (e : exn) :
  for_in l (include_loop fs) [] = Raise e ↔ pass_raises true fs l e.
Proof.
  apply (pass_raise_iff true include_loop (fun _ _ => eq_refl) include_loop_cons).
Qed.

Lemma inclusion_pass_ok (fs : list BaseFilter) (l : list Record) :
  (∃ r, for_in l (include_loop fs) [] = Ok r) ↔ pass_returns true fs l.
Proof.
  apply (pass_ok_iff true include_loop (fun _ _ => eq_refl) include_loop_cons).
Qed.

(** The exclusion stage raises [e] exactly when it reaches a decision
    function that raises [e]. *)
Lemma exclusion_pass_raises (fs : list BaseFilter) (l : list Record) (e : exn) :
  for_in l (exclude_loop fs) [] = Raise e ↔ pass_raises false fs l e.
Proof.
  apply (pass_raise_iff false exclude_loop (fun _ _ => eq_refl) exclude_loop_cons).
Qed.

Lemma pass_raises_nil (stop : bool) (l : list Record) (e : exn) :
  ¬ pass_raises stop [] l e.
Proof.
  intros (_ & _ & _ & _ & _ & ([| ? ?] & ? & ? & H & _)); discriminate H.
Qed.

(** An iteration raises [e] exactly when a decision function raises [e] in
    one of its two stages, and what it has assigned by then is nothing, or
    the output of its inclusion stage. *)
Lemma run_stages_raise_iff (fs : Filters) (l : list Record) (e : exn)
    (c : option (list Record)) :
  run_stages fs l = (Raise e, c)
  ↔ (pass_raises true (include_filters fs) l e ∧ c = None)
    ∨ (pass_returns true (include_filters fs) l
       ∧ pass_raises false (exclude_filters fs) l e
       ∧ c = match include_filters fs with
             | [] => None
             | _ :: _ => Some (List.filter (included (include_filters fs)) l)
             end).
Proof.
  unfold run_stages.
  destruct (include_filters fs) as [| fi incl] eqn:Hi,
           (exclude_filters fs) as [| fe excl] eqn:He.
  - split; [discriminate |].
    intros [[H _] | (_ & H & _)]; destruct (pass_raises_nil _ _ _ H).
  - destruct (for_in l (exclude_loop (fe :: excl)) []) as [r | e'] eqn:Hr.
    + split; [discriminate |].
      intros [[H _] | (_ & H & _)]; [destruct (pass_raises_nil _ _ _ H) |].
      apply exclusion_pass_raises in H. congruence.
    + split.
      * intros [= <- <-]. right. repeat split; [| apply exclusion_pass_raises, Hr].
        intros d _. left. intros f [].
      * intros [[H _] | (_ & H & ->)]; [destruct (pass_raises_nil _ _ _ H) |].
        apply exclusion_pass_raises in H. congruence.
  - destruct (for_in l (include_loop (fi :: incl)) []) as [r | e'] eqn:Hr.
    + split; [discriminate |].
      intros [[H _] | (_ & H & _)]; [| destruct (pass_raises_nil _ _ _ H)].
      apply inclusion_pass_raises in H. congruence.
    + split.
      * intros [= <- <-]. left. split; [apply inclusion_pass_raises, Hr | reflexivity].
      * intros [[H ->] | (_ & H & _)]; [| destruct (pass_raises_nil _ _ _ H)].
        apply inclusion_pass_raises in H. congruence.
  - destruct (for_in l (include_loop (fi :: incl)) []) as [r | e'] eqn:Hr.
    + pose proof (inclusion_pass _ _ _ Hr) as Hkept.
      destruct (for_in l (exclude_loop (fe :: excl)) []) as [r' | e''] eqn:Hr'.
      * split; [discriminate |].
        intros [[H _] | (_ & H & _)].
        -- apply inclusion_pass_raises in H. congruence.
        -- apply exclusion_pass_raises in H. congruence.
      * split.
        -- intros [= <- <-]. right. split; [| split].
           ++ apply inclusion_pass_ok. eauto.
           ++ apply exclusion_pass_raises, Hr'.
           ++ congruence.
        -- intros [[H _] | (_ & H & ->)].
           ++ apply inclusion_pass_raises in H. congruence.
           ++ apply exclusion_pass_raises in H. congruence.
    + split.
      * intros [= <- <-]. left. split; [apply inclusion_pass_raises, Hr | reflexivity].
      * intros [[H ->] | (Hret & _ & _)].
        -- apply inclusion_pass_raises in H. congruence.
        -- apply inclusion_pass_ok in Hret as [r Hr'']. congruence.
Qed.

Lemma editor_ext (a b : CocoEditor) :
  (∀ t, collection t a = collection t b) →
  info a = info b →
  (∀ t, filters_of t a = filters_of t b) →
  filter_applied a = filter_applied b →
  a = b.
Proof.
  intros Hc Hi Hf Hflag.
  pose proof (Hc IMAGE). pose proof (Hc CATEGORY).
  pose proof (Hc ANNOTATION). pose proof (Hc LICENSE).
  pose proof (Hf IMAGE). pose proof (Hf CATEGORY).
  pose proof (Hf ANNOTATION). pose proof (Hf LICENSE).
  destruct a, b. cbn in *. congruence.
Qed.

(** [apply_filter] raises exactly when the iteration of some collection
    raises, the iterations before it having returned; the editor it leaves
    is then determined. *)
Lemma apply_filter_raise_stages (self st' : CocoEditor) (e : exn) :
  apply_filter self = (Raise e, st')
  ↔ ∃ t c,
      run_stages (filters_of t self) (collection t self) = (Raise e, c)
      ∧ (∀ t', (index t' < index t)%nat →
           ∃ c', run_stages (filters_of t' self) (collection t' self) = (Ok tt, c')
                 ∧ collection t' st' = default (collection t' self) c')
      ∧ collection t st' = default (collection t self) c
      ∧ (∀ t', (index t < index t')%nat → collection t' st' = collection t' self)
      ∧ filter_applied st' = filter_applied self
      ∧ info st' = info self
      ∧ (∀ t, filters_of t st' = filters_of t self).
Proof.
  rewrite apply_filter_run_targets. unfold all_targets, run_targets. split.
  - destruct (run_stages (filters_of IMAGE self) _) as [[[] | e0] c0] eqn:H0.
    2: { intros [= <- <-]. exists IMAGE, c0. split; [assumption |].
         split; [intros [] Hlt; cbn in Hlt; lia |].
         split; [destruct c0; reflexivity |].
         split; [intros [] Hlt; cbn in Hlt; try lia; destruct c0; reflexivity |].
         repeat split; try (destruct c0; reflexivity);
           try (intros []; destruct c0; reflexivity). }
    destruct (run_stages (filters_of CATEGORY self) _) as [[[] | e1] c1] eqn:H1.
    2: { intros [= <- <-]. exists CATEGORY, c1. split; [assumption |].
         split.
         { intros [] Hlt; cbn in Hlt; try lia.
           exists c0. split; [exact H0 | destruct c0, c1; reflexivity]. }
         split; [destruct c0, c1; reflexivity |].
         split; [intros [] Hlt; cbn in Hlt; try lia; destruct c0, c1; reflexivity |].
         repeat split; try (destruct c0, c1; reflexivity);
           try (intros []; destruct c0, c1; reflexivity). }
    destruct (run_stages (filters_of ANNOTATION self) _) as [[[] | e2] c2] eqn:H2.
    2: { intros [= <- <-]. exists ANNOTATION, c2. split; [assumption |].
         split.
         { intros [] Hlt; cbn in Hlt; try lia;
             [exists c0 | exists c1]; (split; [assumption |]);
             destruct c0, c1, c2; reflexivity. }
         split; [destruct c0, c1, c2; reflexivity |].
         split; [intros [] Hlt; cbn in Hlt; try lia;
                 destruct c0, c1, c2; reflexivity |].
         repeat split; try (destruct c0, c1, c2; reflexivity);
           try (intros []; destruct c0, c1, c2; reflexivity). }
    destruct (run_stages (filters_of LICENSE self) _) as [[[] | e3] c3] eqn:H3;
      [discriminate |].
    intros [= <- <-]. exists LICENSE, c3. split; [assumption |].
    split.
    { intros [] Hlt; cbn in Hlt; try lia;
        [exists c0 | exists c1 | exists c2]; (split; [assumption |]);
        destruct c0, c1, c2, c3; reflexivity. }
    split; [destruct c0, c1, c2, c3; reflexivity |].
    split; [intros [] Hlt; cbn in Hlt; lia |].
    repeat split; try (destruct c0, c1, c2, c3; reflexivity);
           try (intros []; destruct c0, c1, c2, c3; reflexivity).
  - intros (t & c & Hc & Hbefore & Hat & Hafter & Hflag & Hinfo & Hfs).
    destruct t.
    + rewrite Hc. f_equal. apply editor_ext.
      * intros [];
          [rewrite Hat | rewrite (Hafter CATEGORY) by (cbn; lia)
           | rewrite (Hafter ANNOTATION) by (cbn; lia)
           | rewrite (Hafter LICENSE) by (cbn; lia)];
          destruct c; reflexivity.
      * rewrite Hinfo. destruct c; reflexivity.
      * intros t'. rewrite Hfs. destruct c, t'; reflexivity.
      * rewrite Hflag. destruct c; reflexivity.
    + destruct (Hbefore IMAGE) as (c0 & H0 & E0); [cbn; lia |].
      rewrite H0, Hc. f_equal. apply editor_ext.
      * intros [];
          [rewrite E0 | rewrite Hat
           | rewrite (Hafter ANNOTATION) by (cbn; lia)
           | rewrite (Hafter LICENSE) by (cbn; lia)];
          destruct c0, c; reflexivity.
      * rewrite Hinfo. destruct c0, c; reflexivity.
      * intros t'. rewrite Hfs. destruct c0, c, t'; reflexivity.
      * rewrite Hflag. destruct c0, c; reflexivity.
    + destruct (Hbefore IMAGE) as (c0 & H0 & E0); [cbn; lia |].
      destruct (Hbefore CATEGORY) as (c1 & H1 & E1); [cbn; lia |].
      rewrite H0, H1, Hc. f_equal. apply editor_ext.
      * intros [];
          [rewrite E0 | rewrite E1 | rewrite Hat
           | rewrite (Hafter LICENSE) by (cbn; lia)];
          destruct c0, c1, c; reflexivity.
      * rewrite Hinfo. destruct c0, c1, c; reflexivity.
      * intros t'. rewrite Hfs. destruct c0, c1, c, t'; reflexivity.
      * rewrite Hflag. destruct c0, c1, c; reflexivity.
    + destruct (Hbefore IMAGE) as (c0 & H0 & E0); [cbn; lia |].
      destruct (Hbefore CATEGORY) as (c1 & H1 & E1); [cbn; lia |].
      destruct (Hbefore ANNOTATION) as (c2 & H2 & E2); [cbn; lia |].
      rewrite H0, H1, H2, Hc. f_equal. apply editor_ext.
      * intros []; [rewrite E0 | rewrite E1 | rewrite E2 | rewrite Hat];
          destruct c0, c1, c2, c; reflexivity.
      * rewrite Hinfo. destruct c0, c1, c2, c; reflexivity.
      * intros t'. rewrite Hfs. destruct c0, c1, c2, c, t'; reflexivity.
      * rewrite Hflag. destruct c0, c1, c2, c; reflexivity.
Qed.

(** C3, amended.  [apply_filter] raises [e] exactly when a decision
    function it calls raises [e]: in the inclusion or the exclusion stage
    of some collection [t], the collections being visited in the order
    images, categories, annotations, licenses and the iterations before [t]
    having returned.  The call then leaves [filter_applied], [info] and the
    four Filter Sets as they were, and there is no rollback:
    - every collection visited after [t] is exactly as before the call;
    - [t] itself is as before the call when the exception came from its
      inclusion stage, or from its exclusion stage with no inclusion filter
      registered; when it came from its exclusion stage after its inclusion
      stage had run, [t] holds the records matched by at least one
      inclusion filter;
    - every collection visited before [t] holds what its completed
      iteration assigned to it. *)
Theorem apply_filter_raise (self st' : CocoEditor) (e : exn) :
  apply_filter self = (Raise e, st')
  ↔ ∃ (t : TargetType) (stage : FilterType),
      raised_in stage t self e
      ∧ (∀ t', (index t' < index t)%nat →
           ∃ c, run_stages (filters_of t' self) (collection t' self) = (Ok tt, c)
                ∧ collection t' st' = default (collection t' self) c)
      ∧ collection t st' =
        left_by_failing_stage stage (filters_of t self) (collection t self)
      ∧ (∀ t', (index t < index t')%nat → collection t' st' = collection t' self)
      ∧ filter_applied st' = filter_applied self
      ∧ info st' = info self
      ∧ (∀ t, filters_of t st' = filters_of t self).
Proof.
  rewrite apply_filter_raise_stages. unfold raised_in, left_by_failing_stage. split.
  - intros (t & c & Hc & Hbefore & Hat & Hrest).
    apply run_stages_raise_iff in Hc as [[Hr ->] | (Hret & Hr & ->)].
    + exists t, INCLUSION. split; [exact Hr |]. split; [exact Hbefore |].
      split; [exact Hat | exact Hrest].
    + exists t, EXCLUSION. split; [split; assumption |]. split; [exact Hbefore |].
      split; [| exact Hrest].
      rewrite Hat. destruct (include_filters (filters_of t self)); reflexivity.
  - intros (t & stage & Hraised & Hbefore & Hat & Hrest). destruct stage.
    + exists t, None. split; [apply run_stages_raise_iff; left; split;
                               [exact Hraised | reflexivity] |].
      split; [exact Hbefore |]. split; [exact Hat | exact Hrest].
    + destruct Hraised as [Hret Hr].
      eexists t, _. split; [apply run_stages_raise_iff; right; split;
                            [exact Hret | split; [exact Hr | reflexivity]] |].
      split; [exact Hbefore |]. split; [| exact Hrest].
      rewrite Hat. destruct (include_filters (filters_of t self)); reflexivity.
Qed.

Lemma apply_filter_raise_witness :
  apply_filter Scenario.raising
  = (Raise (Raised "RuntimeError"), set_images [Example.image0] Scenario.raising).
Proof.
  apply (proj2 (apply_filter_raise Scenario.raising
                  (set_images [Example.image0] Scenario.raising)
                  (Raised "RuntimeError"))).
  exists CATEGORY, INCLUSION. split; [| split; [| split; [| split]]].
  - exists [], Example.category0, [Example.category1; Example.category2].
    split; [reflexivity |]. split; [intros d' [] |].
    exists [], (Scenario.RaisingFilter INCLUSION), [].
    split; [reflexivity |]. split; [intros f' [] | reflexivity].
  - intros [] Hlt; cbn in Hlt; try lia.
    exists (Some [Example.image0]). split; vm_compute; reflexivity.
  - reflexivity.
  - intros [] Hlt; cbn in Hlt; try lia; reflexivity.
  - repeat split; try (intros []; reflexivity).
Defined.

(** The two stages of one collection: an exclusion filter that raises
    after the inclusion stage leaves the inclusion output, an inclusion
    filter that raises leaves the collection as it was. *)
Example apply_filter_raise_in_either_stage :
  apply_filter exclusion_raising
  = (Raise (Raised "RuntimeError"), set_images [Example.image0] exclusion_raising)
  ∧ apply_filter inclusion_raising
    = (Raise (Raised "RuntimeError"), inclusion_raising).
Proof. split; vm_compute; reflexivity. Qed.

(** ** The correction pass *)

Lemma select_loop (key : string) (vs : list value)
    (body : Record -> list Record -> result (list Record)) (l : list Record) :
  (∀ d acc, body d acc =
     match d !! key with
     | Some v => Ok (if py_in v vs then acc ++ [d] else acc)
     | None => Raise (KeyError key)
     end) →
  ∀ acc, for_in l body acc =
    if forallb (fun d => has_key d key) l then Ok (acc ++ keep_by key vs l)
    else Raise (KeyError key).
Proof.
  intros Hbody. unfold keep_by.
  induction l as [| d l IH]; intros acc; cbn [for_in forallb List.filter].
  - rewrite app_nil_r. reflexivity.
  - rewrite Hbody. unfold has_key at 1.
    destruct (d !! key) as [v |] eqn:Hd; cbn [mbind result_bind andb].
    + destruct (py_in v vs); rewrite IH; (destruct (forallb _ l); [| reflexivity]);
        [rewrite <- app_assoc |]; reflexivity.
    + reflexivity.
Qed.

Lemma correct_annotations_category_eq (self : CocoEditor) :
  correct_annotations_category self =
  if forallb (fun d => has_key d "id") (categories self) then
    if forallb (fun d => has_key d "category_id") (annotations self) then
      (Ok tt, set_annotations
                (drop_annotations_without_category (categories self)
                                                   (annotations self)) self)
    else (Raise (KeyError "category_id"), self)
  else (Raise (KeyError "id"), self).
Proof.
  unfold correct_annotations_category, mbind, M_bind, get_self, lift, assign.
  rewrite list_comp_getitem. destruct (forallb _ (categories self)); [| reflexivity].
  rewrite for_range_index_for_in.
  rewrite (select_loop "category_id" (fields "id" (categories self))).
  - destruct (forallb _ (annotations self)); reflexivity.
  - intros d acc. unfold getitem. destruct (d !! "category_id"); reflexivity.
Qed.

Lemma correct_annotations_image_eq (self : CocoEditor) :
  correct_annotations_image self =
  if forallb (fun d => has_key d "id") (images self) then
    if forallb (fun d => has_key d "image_id") (annotations self) then
      (Ok tt, set_annotations
                (drop_annotations_without_image (images self) (annotations self))
                self)
    else (Raise (KeyError "image_id"), self)
  else (Raise (KeyError "id"), self).
Proof.
  unfold correct_annotations_image, mbind, M_bind, get_self, lift, assign.
  rewrite list_comp_getitem. destruct (forallb _ (images self)); [| reflexivity].
  rewrite for_range_index_for_in.
  rewrite (select_loop "image_id" (fields "id" (images self))).
  - destruct (forallb _ (annotations self)); reflexivity.
  - intros d acc. unfold getitem. destruct (d !! "image_id"); reflexivity.
Qed.

Lemma correct_images_eq (self : CocoEditor) :
  correct_images self =
  if forallb (fun d => has_key d "image_id") (annotations self) then
    if forallb (fun d => has_key d "id") (images self) then
      (Ok tt, set_images
                (drop_unreferenced_images (annotations self) (images self)) self)
    else (Raise (KeyError "id"), self)
  else (Raise (KeyError "image_id"), self).
Proof.
  unfold correct_images, mbind, M_bind, get_self, lift, assign.
  rewrite list_comp_getitem. destruct (forallb _ (annotations self)); [| reflexivity].
  rewrite (select_loop "id" (fields "image_id" (annotations self))).
  - destruct (forallb _ (images self)); reflexivity.
  - intros d acc. unfold getitem. destruct (d !! "id"); reflexivity.
Qed.

Lemma correct_categories_eq (self : CocoEditor) :
  correct_categories self =
  if forallb (fun d => has_key d "category_id") (annotations self) then
    if forallb (fun d => has_key d "id") (categories self) then
      (Ok tt, set_categories
                (drop_unreferenced_categories (annotations self) (categories self))
                self)
    else (Raise (KeyError "id"), self)
  else (Raise (KeyError "category_id"), self).
Proof.
  unfold correct_categories, mbind, M_bind, get_self, lift, assign.
  rewrite list_comp_getitem. destruct (forallb _ (annotations self)); [| reflexivity].
  rewrite (select_loop "id" (fields "category_id" (annotations self))).
  - destruct (forallb _ (categories self)); reflexivity.
  - intros d acc. unfold getitem. destruct (d !! "id"); reflexivity.
Qed.

Lemma all_have_keep_by (key key' : string) (vs : list value) (l : list Record) :
  all_have key l → all_have key (keep_by key' vs l).
Proof.
  unfold all_have, keep_by. rewrite !Forall_forall. intros H d Hd.
  apply list_elem_of_In, filter_In in Hd as [Hd _].
  apply H, list_elem_of_In. exact Hd.
Qed.

Lemma bind_M {A B : Type} (m : M A) (k : A -> M B) (self : CocoEditor) :
  (m ≫= k) self =
  match m self with
  | (Ok a, self') => k a self'
  | (Raise e, self') => (Raise e, self')
  end.
Proof. reflexivity. Qed.

(** The pass returns exactly when the fields it reads are present, and
    then it has taken the four steps in order. *)
Lemma correction_pass_returns (ci cc : bool) (self : CocoEditor) :
  all_have "id" (images self) → all_have "id" (categories self) →
  all_have "category_id" (annotations self) →
  all_have "image_id"
    (drop_annotations_without_category (categories self) (annotations self)) →
  correction_pass ci cc self
  = (Ok (aggregate (corrected ci cc self)), corrected ci cc self).
Proof.
  intros Hi Hc Hac Hai.
  pose proof (all_have_keep_by "image_id" "image_id" (ids (images self)) _ Hai) as Hai2.
  pose proof (all_have_keep_by "category_id" "category_id"
                (ids (categories self)) _ Hac) as Hac1.
  pose proof (all_have_keep_by "category_id" "image_id"
                (ids (images self)) _ Hac1) as Hac2.
  apply forallb_has_key in Hi, Hc, Hac, Hai, Hai2, Hac2.
  unfold correction_pass. rewrite bind_M, correct_annotations_category_eq, Hc, Hac.
  rewrite bind_M, correct_annotations_image_eq. cbn [images annotations set_annotations].
  rewrite Hi, Hai.
  destruct ci, cc; rewrite bind_M.
  - rewrite correct_images_eq. cbn [images annotations set_annotations].
    unfold drop_annotations_without_image at 1. rewrite Hai2, Hi.
    rewrite bind_M, correct_categories_eq.
    cbn [categories annotations set_annotations set_images].
    unfold drop_annotations_without_image at 1.
    unfold drop_annotations_without_category at 1. rewrite Hac2, Hc. reflexivity.
  - rewrite correct_images_eq. cbn [images annotations set_annotations].
    unfold drop_annotations_without_image at 1. rewrite Hai2, Hi. reflexivity.
  - cbn [mret M_ret]. rewrite bind_M, correct_categories_eq.
    cbn [categories annotations set_annotations set_images].
    unfold drop_annotations_without_image at 1.
    unfold drop_annotations_without_category at 1. rewrite Hac2, Hc. reflexivity.
  - reflexivity.
Qed.

Lemma correction_pass_ok (ci cc : bool) (self st' : CocoEditor) (agg : Document) :
  correction_pass ci cc self = (Ok agg, st') →
  all_have "id" (images self) ∧ all_have "id" (categories self)
  ∧ all_have "category_id" (annotations self)
  ∧ all_have "image_id"
      (drop_annotations_without_category (categories self) (annotations self)).
Proof.
  unfold correction_pass. rewrite bind_M, correct_annotations_category_eq.
  destruct (forallb _ (categories self)) eqn:Hc; [| discriminate].
  destruct (forallb _ (annotations self)) eqn:Hac; [| discriminate].
  rewrite bind_M, correct_annotations_image_eq. cbn [images annotations set_annotations].
  destruct (forallb _ (images self)) eqn:Hi; [| discriminate].
  destruct (forallb _ (drop_annotations_without_category _ _)) eqn:Hai;
    [| discriminate].
  intros _. apply forallb_has_key in Hi, Hc, Hac, Hai. tauto.
Qed.

Lemma correct_unfold (ci cc : bool) (self : CocoEditor) :
  correct ci cc self =
  if filter_applied self then correction_pass ci cc self
  else match apply_filter self with
       | (Ok _, st0) => correction_pass ci cc st0
       | (Raise e, st0) => (Raise e, st0)
       end.
Proof.
  unfold correct. rewrite bind_M. unfold get_self at 1. rewrite bind_M.
  destruct (filter_applied self); reflexivity.
Qed.

(** The editor the correction pass of [correct] starts from. *)
Lemma correct_ok (ci cc : bool) (self st' : CocoEditor) (agg : Document) :
  correct ci cc self = (Ok agg, st') →
  ∃ st0,
    (if filter_applied self then st0 = self else apply_filter self = (Ok tt, st0))
    ∧ filter_applied st0 = true
    ∧ correction_pass ci cc st0 = (Ok agg, st')
    ∧ st' = corrected ci cc st0 ∧ agg = aggregate st'.
Proof.
  rewrite correct_unfold. intros H.
  assert (Hpass : ∀ st0, correction_pass ci cc st0 = (Ok agg, st') →
            st' = corrected ci cc st0 ∧ agg = aggregate st').
  { intros st0 H0. pose proof (correction_pass_ok _ _ _ _ _ H0) as (? & ? & ? & ?).
    rewrite correction_pass_returns in H0 by assumption.
    injection H0 as <- <-. split; reflexivity. }
  destruct (filter_applied self) eqn:Hflag.
  - exists self. repeat split; try assumption; apply (Hpass self H).
  - destruct (apply_filter self) as [[[] | e] st0] eqn:Hap; [| discriminate].
    exists st0. repeat split; try assumption; try apply (Hpass st0 H).
    apply apply_filter_ok in Hap. tauto.
Qed.

Lemma keyed_apply_filter (self st' : CocoEditor) :
  apply_filter self = (Ok tt, st') → keyed self → keyed st'.
Proof.
  intros H (Hi & Hc & Hac & Hai). unfold keyed, all_have.
  repeat split.
  - exact (apply_filter_incl _ IMAGE _ _ H Hi).
  - exact (apply_filter_incl _ CATEGORY _ _ H Hc).
  - exact (apply_filter_incl _ ANNOTATION _ _ H Hac).
  - exact (apply_filter_incl _ ANNOTATION _ _ H Hai).
Qed.

(** [correct] returns on an editor whose records carry the fields it reads
    and whose filters, if they are still to be applied, do not raise. *)
Lemma correct_returns (ci cc : bool) (self : CocoEditor) :
  keyed self → (filter_applied self = false → filters_never_raise self) →
  ∃ st0,
    (if filter_applied self then st0 = self else apply_filter self = (Ok tt, st0))
    ∧ correct ci cc self
      = (Ok (aggregate (corrected ci cc st0)), corrected ci cc st0).
Proof.
  intros Hk Hnr. rewrite correct_unfold.
  assert (Hpass : ∀ st0, keyed st0 → correction_pass ci cc st0
            = (Ok (aggregate (corrected ci cc st0)), corrected ci cc st0)).
  { intros st0 (Hi & Hc & Hac & Hai). apply correction_pass_returns; try assumption.
    apply all_have_keep_by. exact Hai. }
  destruct (filter_applied self).
  - exists self. split; [reflexivity | apply Hpass, Hk].
  - destruct (apply_filter_total self (Hnr eq_refl)) as [st0 Hst0].
    exists st0. split; [exact Hst0 |]. rewrite Hst0.
    apply Hpass. exact (keyed_apply_filter _ _ Hst0 Hk).
Qed.

Lemma fields_In (key : string) (l : list Record) (w : value) :
  In w (fields key l) ↔ ∃ d, In d l ∧ d !! key = Some w.
Proof.
  unfold fields. rewrite <- list_elem_of_In, list_elem_of_omap.
  split; intros (d & Hd & Hw); exists d; (split; [| exact Hw]);
    apply list_elem_of_In; exact Hd.
Qed.

Lemma keep_by_In (key : string) (vs : list value) (l : list Record) (d : Record) :
  In d (keep_by key vs l) ↔
  In d l ∧ ∃ v w, d !! key = Some v ∧ In w vs ∧ py_eq v w = true.
Proof.
  unfold keep_by. rewrite filter_In. split; intros [Hd H]; (split; [exact Hd |]).
  - destruct (d !! key) as [v |]; [| discriminate].
    apply py_in_true in H as (w & Hw & Heq). eauto.
  - destruct H as (v & w & -> & Hw & Heq). apply py_in_true. eauto.
Qed.

Lemma filter_all {A : Type} (p : A -> bool) (l : list A) :
  (∀ x, In x l → p x = true) → List.filter p l = l.
Proof.
  induction l as [| x l IH]; intros H; simpl; [reflexivity |].
  rewrite (H x) by (left; reflexivity). f_equal. apply IH.
  intros y Hy. apply H. right. exact Hy.
Qed.

Lemma filter_filter {A : Type} (p : A -> bool) (l : list A) :
  List.filter p (List.filter p l) = List.filter p l.
Proof.
  apply filter_all. intros x Hx. apply filter_In in Hx as [_ Hx]. exact Hx.
Qed.

Lemma keep_by_all (key : string) (l' l : list Record) :
  (∀ ann, In ann l → refers_into key l' ann) → keep_by key (ids l') l = l.
Proof.
  intros H. unfold keep_by. apply filter_all. intros ann Hann.
  destruct (H ann Hann) as (v & d & w & -> & Hd & Hw & Heq).
  apply py_in_true. exists w. split; [| exact Heq].
  apply fields_In. eauto.
Qed.

(** After the four steps every annotation refers to a held image and to a
    held category. *)
Lemma corrected_integrity (ci cc : bool) (self : CocoEditor) :
  referential_integrity (corrected ci cc self).
Proof.
  intros ann Hann. unfold corrected in *.
  cbn [annotations images categories set_annotations set_images set_categories] in *.
  unfold drop_annotations_without_image, drop_annotations_without_category in Hann.
  apply keep_by_In in Hann as [Hann (iv & iw & Hiv & Hiw & Hieq)].
  pose proof Hann as Hann1.
  apply keep_by_In in Hann1 as [Hann0 (cv & cw & Hcv & Hcw & Hceq)].
  apply fields_In in Hiw as (img & Himg & Himg_id).
  apply fields_In in Hcw as (cat & Hcat & Hcat_id).
  assert (Hsurv : In ann (drop_annotations_without_image (images self)
            (drop_annotations_without_category (categories self) (annotations self)))).
  { apply keep_by_In. split; [exact Hann |].
    exists iv, iw. repeat split; try assumption. apply fields_In. eauto. }
  split.
  - exists iv, img, iw. repeat split; try assumption.
    destruct ci; [| exact Himg]. apply keep_by_In. split; [exact Himg |].
    exists iw, iv. repeat split; [exact Himg_id | | rewrite py_eq_sym; exact Hieq].
    apply fields_In. eauto.
  - exists cv, cat, cw. repeat split; try assumption.
    destruct cc; [| exact Hcat]. apply keep_by_In. split; [exact Hcat |].
    exists cw, cv. repeat split; [exact Hcat_id | | rewrite py_eq_sym; exact Hceq].
    apply fields_In. eauto.
Qed.

Lemma set_held (self : CocoEditor) :
  set_categories (categories self)
    (set_images (images self) (set_annotations (annotations self) self)) = self.
Proof. destruct self; reflexivity. Qed.

(** Taking the four steps again changes nothing. *)
Lemma corrected_idempotent (ci cc : bool) (self : CocoEditor) :
  corrected ci cc (corrected ci cc self) = corrected ci cc self.
Proof.
  pose proof (corrected_integrity ci cc self) as Hint.
  set (st1 := corrected ci cc self) in *.
  assert (H1 : drop_annotations_without_category (categories st1) (annotations st1)
               = annotations st1).
  { apply keep_by_all. intros ann Hann. apply (Hint ann Hann). }
  assert (H2 : drop_annotations_without_image (images st1) (annotations st1)
               = annotations st1).
  { apply keep_by_all. intros ann Hann. apply (Hint ann Hann). }
  assert (H3 : (if ci then drop_unreferenced_images (annotations st1) (images st1)
                else images st1) = images st1).
  { destruct ci; [| reflexivity]. apply filter_filter. }
  assert (H4 : (if cc then drop_unreferenced_categories (annotations st1) (categories st1)
                else categories st1) = categories st1).
  { destruct cc; [| reflexivity]. apply filter_filter. }
  unfold corrected at 1. cbv zeta. rewrite H1, H2, H3, H4. apply set_held.
Qed.

Lemma keyedb_sound (self : CocoEditor) : keyedb self = true → keyed self.
Proof.
  unfold keyedb, keyed. rewrite !andb_true_iff, !forallb_has_key. tauto.
Qed.

(** C4.  On an editor whose records carry the id fields, [correct] returns,
    after [apply_filter] if [filter_applied] was false, and it has taken
    these steps in this order on the collections held then: (1) drop the
    annotations whose category_id is not among the categories' ids; (2) of
    those left, drop the annotations whose image_id is not among the images'
    ids; (3) if [correct_image] (true when omitted), drop the images whose
    id no surviving annotation refers to; (4) if [correct_category] (false
    when omitted), drop the categories whose id no surviving annotation
    refers to.  With the arguments omitted the categories are those held
    before the pass. *)
Theorem correct_steps_in_order (correct_image correct_category : option bool)
    (self : CocoEditor) :
  keyed self →
  (filter_applied self = false → filters_never_raise self) →
  ∃ st0 st',
    (if filter_applied self then st0 = self else apply_filter self = (Ok tt, st0))
    ∧ correct_call correct_image correct_category self = (Ok (aggregate st'), st')
    ∧ let anns1 :=
        drop_annotations_without_category (categories st0) (annotations st0) in
      let anns2 := drop_annotations_without_image (images st0) anns1 in
      annotations st' = anns2
      ∧ images st' =
        (if default true correct_image
         then drop_unreferenced_images anns2 (images st0) else images st0)
      ∧ categories st' =
        (if default false correct_category
         then drop_unreferenced_categories anns2 (categories st0)
         else categories st0)
      ∧ licenses st' = licenses st0 ∧ info st' = info st0.
Proof.
  intros Hk Hnr. unfold correct_call.
  destruct (correct_returns (default true correct_image)
              (default false correct_category) self Hk Hnr) as (st0 & Hst0 & Hc).
  exists st0, (corrected (default true correct_image)
                 (default false correct_category) st0).
  split; [exact Hst0 |]. split; [exact Hc |].
  repeat split.
Qed.

Lemma correct_steps_in_order_witness :
  ∃ st', correct_call None None Scenario.filtered = (Ok (aggregate st'), st')
    ∧ annotations st' = [Example.annotation1]
    ∧ images st' = [Example.image0]
    ∧ categories st' = Example.categories.
Proof.
  destruct (correct_steps_in_order None None Scenario.filtered)
    as (st0 & st' & Hst0 & Hc & Ha & Hi & Hcat & _).
  - apply keyedb_sound. vm_compute. reflexivity.
  - intros H. vm_compute in H. discriminate H.
  - change (filter_applied Scenario.filtered) with true in Hst0.
    cbv iota in Hst0. subst st0.
    exists st'. split; [exact Hc |].
    rewrite Ha, Hi, Hcat. repeat split; vm_compute; reflexivity.
Defined.

(** C5.  Whenever [correct] returns, for either value of each flag, every
    annotation held by the editor has an image_id equal to the id of a held
    image and a category_id equal to the id of a held category, and the
    returned aggregate holds the editor's collections. *)
Theorem correct_restores_integrity (correct_image correct_category : bool)
    (self st' : CocoEditor) (agg : Document) :
  correct correct_image correct_category self = (Ok agg, st') →
  referential_integrity st'
  ∧ doc_annotations agg = Some (annotations st')
  ∧ doc_images agg = Some (images st')
  ∧ doc_categories agg = Some (categories st').
Proof.
  intros H. apply correct_ok in H as (st0 & _ & _ & _ & -> & ->).
  split; [apply corrected_integrity |]. repeat split.
Qed.

Lemma correct_restores_integrity_witness :
  referential_integrity (snd (correct true true Scenario.both_kinds))
  ∧ annotations (snd (correct true true Scenario.both_kinds))
    = [Example.annotation1; Example.annotation3].
Proof.
  split; [| vm_compute; reflexivity].
  apply (correct_restores_integrity true true Scenario.both_kinds _
           (aggregate (snd (correct true true Scenario.both_kinds)))).
  vm_compute. reflexivity.
Defined.

(** On an editor whose records carry the id fields and whose filters do not
    raise, [correct] returns, and leaves referential integrity. *)
Lemma correct_returns_with_integrity (ci cc : bool) (self : CocoEditor) :
  keyed self →
  (filter_applied self = false → filters_never_raise self) →
  ∃ agg st', correct ci cc self = (Ok agg, st') ∧ referential_integrity st'.
Proof.
  intros Hk Hnr.
  destruct (correct_returns ci cc self Hk Hnr) as (st0 & _ & Hc).
  eexists _, _. split; [exact Hc | apply corrected_integrity].
Qed.

(** C10.  When a call [correct(correct_image, correct_category)] returns, a
    second call with the same flags made right after it returns the same
    aggregate and leaves the editor as the first call left it. *)
Theorem correct_idempotent (correct_image correct_category : bool)
    (self st' : CocoEditor) (agg : Document) :
  correct correct_image correct_category self = (Ok agg, st') →
  correct correct_image correct_category st' = (Ok agg, st').
Proof.
  intros H. apply correct_ok in H as (st0 & _ & Hflag & Hpass & -> & ->).
  apply correction_pass_ok in Hpass as (Hi & Hc & Hac & Hai).
  set (st1 := corrected correct_image correct_category st0).
  pose proof (corrected_integrity correct_image correct_category st0) as Hint.
  fold st1 in Hint.
  assert (Ha1 : all_have "category_id" (annotations st1)).
  { apply all_have_keep_by, all_have_keep_by. exact Hac. }
  assert (Ha2 : all_have "image_id" (annotations st1)).
  { apply all_have_keep_by. exact Hai. }
  assert (Hi1 : all_have "id" (images st1)).
  { unfold st1, corrected.
    cbn [images set_annotations set_images set_categories].
    destruct correct_image; [apply all_have_keep_by |]; exact Hi. }
  assert (Hc1 : all_have "id" (categories st1)).
  { unfold st1, corrected.
    cbn [categories set_annotations set_images set_categories].
    destruct correct_category; [apply all_have_keep_by |]; exact Hc. }
  rewrite correct_unfold.
  change (filter_applied st1) with (filter_applied st0). rewrite Hflag.
  rewrite correction_pass_returns; try assumption.
  - unfold st1. rewrite corrected_idempotent. reflexivity.
  - unfold drop_annotations_without_category. rewrite keep_by_all; [exact Ha2 |].
    intros ann Hann. apply (Hint ann Hann).
Qed.

Lemma correct_idempotent_witness :
  correct true true (snd (correct true true Scenario.both_kinds))
  = correct true true Scenario.both_kinds.
Proof.
  assert (H : correct true true Scenario.both_kinds
              = (Ok (aggregate (snd (correct true true Scenario.both_kinds))),
                 snd (correct true true Scenario.both_kinds)))
    by (vm_compute; reflexivity).
  rewrite H at 2.
  exact (correct_idempotent true true Scenario.both_kinds _ _ H).
Defined.

(** ** Validation *)

Lemma missing_nil (required_keys : list string) (d : Record) :
  missing required_keys d = [] ↔ complete required_keys d.
Proof.
  unfold missing, complete. induction required_keys as [| k ks IH]; simpl.
  - split; [intros _ key [] | reflexivity].
  - unfold has_key at 1. destruct (d !! k) as [v |] eqn:Hk; simpl.
    + rewrite IH. split.
      * intros H key [<- | Hkey]; [rewrite Hk; eauto | apply H, Hkey].
      * intros H key Hkey. apply H. right. exact Hkey.
    + split; [discriminate |]. intros H.
      destruct (H k) as [v Hv]; [left; reflexivity | congruence].
Qed.

Lemma validate_keys_cons (d : Record) (data : list Record)
    (required_keys : list string) (target : string) :
  validate_keys (d :: data) required_keys target =
  match missing required_keys d with
  | [] => validate_keys data required_keys target
  | _ :: _ =>
      Raise (MissingKeys (missing required_keys d) target
               (dict_get d "id" (VStr "Unknown")))
  end.
Proof.
  unfold validate_keys, missing. cbn [for_in].
  destruct (List.filter _ required_keys); reflexivity.
Qed.

(** C7.  [validate_keys] returns if and only if every record carries all
    the required fields.  Otherwise it raises, and what it raises names the
    first record that lacks a required field, by its [id] or by
    ["Unknown"] when it has none, together with the required fields that
    record lacks and the kind of record; it raises if and only if some
    record lacks some required field.  The constructor and [reset] return
    only when the three collections pass it. *)
Theorem validate_keys_spec (data : list Record) (required_keys : list string)
    (target : string) :
  (validate_keys data required_keys target = Ok tt
   ↔ ∀ d, In d data → complete required_keys d)
  ∧ ((∃ e, validate_keys data required_keys target = Raise e)
     ↔ ∃ d key, In d data ∧ In key required_keys ∧ d !! key = None)
  ∧ (∀ e, validate_keys data required_keys target = Raise e →
       ∃ pre d post,
         data = pre ++ d :: post
         ∧ (∀ d', In d' pre → complete required_keys d')
         ∧ missing required_keys d ≠ []
         ∧ (∀ key, In key (missing required_keys d)
                   ↔ In key required_keys ∧ d !! key = None)
         ∧ e = MissingKeys (missing required_keys d) target
                 (match d !! "id" with Some id => id | None => VStr "Unknown" end))
  ∧ (∀ doc ed, __init__ doc = Ok ed →
       validate_images (images ed) = Ok tt
       ∧ validate_categories (categories ed) = Ok tt
       ∧ validate_annotations (annotations ed) = Ok tt)
  ∧ (∀ doc self st', reset doc self = (Ok tt, st') →
       validate_images (images st') = Ok tt
       ∧ validate_categories (categories st') = Ok tt
       ∧ validate_annotations (annotations st') = Ok tt).
Proof.
  assert (Hok : validate_keys data required_keys target = Ok tt
                ↔ ∀ d, In d data → complete required_keys d).
  { induction data as [| d data IH]; [split; [intros _ d [] | reflexivity] |].
    rewrite validate_keys_cons.
    destruct (missing required_keys d) as [| k ks] eqn:Hm.
    - apply missing_nil in Hm. rewrite IH. split.
      + intros H d' [<- | Hd']; [exact Hm | apply H, Hd'].
      + intros H d' Hd'. apply H. right. exact Hd'.
    - split; [discriminate |]. intros H.
      assert (Hc : complete required_keys d) by (apply H; left; reflexivity).
      apply missing_nil in Hc. congruence. }
  assert (Hmiss : ∀ d key, In key (missing required_keys d)
                           ↔ In key required_keys ∧ d !! key = None).
  { intros d key. unfold missing. rewrite filter_In. unfold has_key.
    destruct (d !! key); simpl; split; intros [? ?]; (discriminate || tauto). }
  assert (Hraise : ∀ e, validate_keys data required_keys target = Raise e →
       ∃ pre d post,
         data = pre ++ d :: post
         ∧ (∀ d', In d' pre → complete required_keys d')
         ∧ missing required_keys d ≠ []
         ∧ e = MissingKeys (missing required_keys d) target
                 (dict_get d "id" (VStr "Unknown"))).
  { clear Hok. induction data as [| d data IH]; intros e; [discriminate |].
    rewrite validate_keys_cons.
    destruct (missing required_keys d) as [| k ks] eqn:Hm.
    - intros H. destruct (IH e H) as (pre & d0 & post & -> & Hpre & Hd0 & ->).
      exists (d :: pre), d0, post. repeat split; try assumption.
      intros d' [<- | Hd']; [apply missing_nil, Hm | apply Hpre, Hd'].
    - intros [= <-]. exists [], d, data. rewrite Hm.
      repeat split; [intros d' [] | discriminate]. }
  split; [exact Hok |]. split; [| split; [| split]].
  - split.
    + intros [e He]. destruct (Hraise e He) as (pre & d & post & -> & _ & Hd & _).
      destruct (missing required_keys d) as [| k ks] eqn:Hm; [congruence |].
      exists d, k. split; [apply in_elt |].
      apply Hmiss. rewrite Hm. left. reflexivity.
    + intros (d & key & Hd & Hkey & Hnone).
      destruct (validate_keys data required_keys target) as [[] | e] eqn:Hv; [| eauto].
      destruct (proj1 Hok eq_refl d Hd key Hkey) as [v Hv']. congruence.
  - intros e He. destruct (Hraise e He) as (pre & d & post & Hdata & Hpre & Hd & He').
    exists pre, d, post.
    split; [exact Hdata |]. split; [exact Hpre |]. split; [exact Hd |].
    split; [apply Hmiss | exact He'].
  - intros doc ed. unfold __init__.
    destruct (doc_images doc) as [imgs |]; [| discriminate].
    destruct (doc_annotations doc) as [anns |]; [| discriminate].
    destruct (doc_categories doc) as [cats |]; [| discriminate].
    cbn [doc_getitem mbind result_bind].
    destruct (validate_images imgs) as [[] |] eqn:Hi; [| discriminate].
    destruct (validate_categories cats) as [[] |] eqn:Hc; [| discriminate].
    destruct (validate_annotations anns) as [[] |] eqn:Ha; [| discriminate].
    cbn [mbind result_bind]. intros [= <-]. repeat split; assumption.
  - intros doc self st'. unfold reset.
    destruct (doc_images doc) as [imgs |]; [| discriminate].
    destruct (doc_annotations doc) as [anns |]; [| discriminate].
    destruct (doc_categories doc) as [cats |]; [| discriminate].
    unfold mbind, M_bind, lift, assign, get_self, doc_getitem.
    cbn [images annotations categories set_images set_annotations
         set_categories set_licenses set_info].
    destruct (validate_images imgs) as [[] |] eqn:Hi; [| discriminate].
    destruct (validate_categories cats) as [[] |] eqn:Hc; [| discriminate].
    destruct (validate_annotations anns) as [[] |] eqn:Ha; [| discriminate].
    intros [= <-]. repeat split; assumption.
Qed.

Lemma validate_keys_spec_witness :
  validate_keys [data_item_1] ["id"; "name"; "category"] "data item" = Ok tt.
Proof.
  apply (validate_keys_spec [data_item_1] ["id"; "name"; "category"] "data item").
  intros d [<- | []] key Hkey. simpl in Hkey.
  destruct Hkey as [<- | [<- | [<- | []]]]; vm_compute; eauto.
Defined.

(** [test_validate_keys_failure], and a record without [id]. *)
Example validate_keys_failure :
  validate_keys [data_item_1; data_item_2] ["id"; "name"; "category"] "data item"
  = Raise (MissingKeys ["name"] "data item" (VInt 2))
  ∧ validate_keys [data_item_1; data_item_no_id] ["id"; "name"; "category"]
      "data item"
    = Raise (MissingKeys ["id"; "name"] "data item" (VStr "Unknown")).
Proof. split; vm_compute; reflexivity. Qed.

(** ** [reset] *)

(** [reset] on any editor does what the constructor does: when one returns
    so does the other, with the same editor, and when one raises the other
    raises the same exception. *)
Lemma reset_as_constructor (annotation : Document) (self : CocoEditor) :
  match __init__ annotation with
  | Ok fresh => reset annotation self = (Ok tt, fresh)
  | Raise e => fst (reset annotation self) = Raise e
  end.
Proof.
  unfold __init__, reset.
  destruct (doc_images annotation) as [imgs |]; [| reflexivity].
  destruct (doc_annotations annotation) as [anns |]; [| reflexivity].
  destruct (doc_categories annotation) as [cats |]; [| reflexivity].
  unfold mbind, M_bind, lift, assign, get_self, doc_getitem, result_bind.
  cbn [images annotations categories set_images set_annotations
       set_categories set_licenses set_info].
  destruct (validate_images imgs) as [[] |]; [| reflexivity].
  destruct (validate_categories cats) as [[] |]; [| reflexivity].
  destruct (validate_annotations anns) as [[] |]; reflexivity.
Qed.

(** C9.  For a document the constructor accepts, [reset] with that document,
    called on an editor after any sequence of filter registrations,
    [apply_filter], [correct] and [reset] calls, returns and leaves exactly
    the editor the constructor builds from the document: its images,
    annotations and categories are the document's, its licenses and info the
    document's (empty when the document has none), [filter_applied] is
    false and the four Filter Sets are empty. *)
Theorem reset_restores (original : Document) (fresh self : CocoEditor)
    (calls : list call) :
  __init__ original = Ok fresh →
  reset original (run_calls calls self) = (Ok tt, fresh)
  ∧ doc_images original = Some (images fresh)
  ∧ doc_annotations original = Some (annotations fresh)
  ∧ doc_categories original = Some (categories fresh)
  ∧ licenses fresh = default [] (doc_licenses original)
  ∧ info fresh = default ∅ (doc_info original)
  ∧ filter_applied fresh = false
  ∧ ∀ t, include_filters (filters_of t fresh) = []
         ∧ exclude_filters (filters_of t fresh) = [].
Proof.
  intros Hinit.
  pose proof (reset_as_constructor original (run_calls calls self)) as Hreset.
  rewrite Hinit in Hreset. split; [exact Hreset |].
  revert Hinit. unfold __init__.
  destruct (doc_images original) as [imgs |]; [| discriminate].
  destruct (doc_annotations original) as [anns |]; [| discriminate].
  destruct (doc_categories original) as [cats |]; [| discriminate].
  cbn [doc_getitem mbind result_bind].
  destruct (validate_images imgs) as [[] |]; [| discriminate].
  destruct (validate_categories cats) as [[] |]; [| discriminate].
  destruct (validate_annotations anns) as [[] |]; [| discriminate].
  cbn [mbind result_bind]. intros [= <-].
  repeat split; destruct t; reflexivity.
Qed.

Lemma reset_restores_witness :
  reset Example.dataset
    (run_calls [AddFileNameFilter (Some ["image0.jpg"; "image1.jpg"])
                                  (Some ["image1.jpg"]);
                AddCategoryFilter (Some ["category0"; "category1"])
                                  (Some ["category0"]);
                AddCustomFilter (Scenario.AreaFilter INCLUSION 0) (Some "annotation");
                ApplyFilter; Correct true false] Example.editor)
  = (Ok tt, Example.editor).
Proof.
  apply (reset_restores Example.dataset Example.editor Example.editor).
  vm_compute. reflexivity.
Defined.

(** ** [filter_applied] *)

Ltac same_data_done :=
  repeat split;
  unfold mbind, M_bind, get_self, mret, M_ret, aggregate; cbn; congruence.

(** The correction pass reads the held data only. *)
Lemma correction_pass_same_data (ci cc : bool) (a b : CocoEditor) :
  same_data a b →
  fst (correction_pass ci cc a) = fst (correction_pass ci cc b)
  ∧ same_data (snd (correction_pass ci cc a)) (snd (correction_pass ci cc b)).
Proof.
  intros (Hi & Ha & Hc & Hl & Hinfo). unfold correction_pass.
  rewrite !(bind_M correct_annotations_category), !correct_annotations_category_eq.
  rewrite Hc, Ha.
  destruct (forallb _ (categories b)); [| same_data_done].
  destruct (forallb _ (annotations b)); [| same_data_done].
  rewrite !(bind_M correct_annotations_image), !correct_annotations_image_eq.
  cbn [images annotations set_annotations]. rewrite Hi.
  destruct (forallb _ (images b)); [| same_data_done].
  destruct (forallb _ (drop_annotations_without_category _ _));
    [| same_data_done].
  destruct ci, cc; rewrite !bind_M.
  - rewrite !correct_images_eq. cbn [images annotations set_annotations]. rewrite Hi.
    destruct (forallb _ (drop_annotations_without_image _ _));
      [| same_data_done].
    destruct (forallb _ (images b)); [| same_data_done].
    rewrite !bind_M, !correct_categories_eq.
    cbn [categories annotations set_annotations set_images]. rewrite Hc.
    destruct (forallb _ (drop_annotations_without_image _ _));
      [| same_data_done].
    destruct (forallb _ (categories b)); same_data_done.
  - rewrite !correct_images_eq. cbn [images annotations set_annotations]. rewrite Hi.
    destruct (forallb _ (drop_annotations_without_image _ _));
      [| same_data_done].
    destruct (forallb _ (images b)); same_data_done.
  - cbn [mret M_ret]. rewrite !bind_M, !correct_categories_eq.
    cbn [categories annotations set_annotations set_images]. rewrite Hc.
    destruct (forallb _ (drop_annotations_without_image _ _));
      [| same_data_done].
    destruct (forallb _ (categories b)); same_data_done.
  - same_data_done.
Qed.

Lemma add_filter_frame (filter : BaseFilter) (target_type : string)
    (self : CocoEditor) :
  filter_applied (snd (__add_filter filter target_type self)) = filter_applied self
  ∧ same_data (snd (__add_filter filter target_type self)) self.
Proof.
  unfold __add_filter. destruct (negb _); [repeat split |].
  unfold mbind, M_bind, assign, mret, M_ret.
  destruct (String.eqb target_type "image"), (String.eqb target_type "category"),
    (String.eqb target_type "annotation"), (String.eqb target_type "license");
    repeat split.
Qed.

Lemma same_data_trans (a b c : CocoEditor) :
  same_data a b → same_data b c → same_data a c.
Proof. unfold same_data. intuition congruence. Qed.

(** Registration assigns neither the collections nor [filter_applied]. *)
Lemma registration_frame (c : call) (self : CocoEditor) :
  is_registration c = true →
  filter_applied (snd (run_call c self)) = filter_applied self
  ∧ same_data (snd (run_call c self)) self.
Proof.
  assert (Htwo : ∀ (m1 m2 : M unit),
    (∀ s, filter_applied (snd (m1 s)) = filter_applied s ∧ same_data (snd (m1 s)) s) →
    (∀ s, filter_applied (snd (m2 s)) = filter_applied s ∧ same_data (snd (m2 s)) s) →
    ∀ s, filter_applied (snd ((m1;; m2) s)) = filter_applied s
         ∧ same_data (snd ((m1;; m2) s)) s).
  { intros m1 m2 H1 H2 s. rewrite bind_M. specialize (H1 s).
    destruct (m1 s) as [[[] | e] s1]; cbn [snd] in *; [| exact H1].
    destruct (H2 s1) as [Hf Hd]. destruct H1 as [Hf1 Hd1].
    split; [congruence | eapply same_data_trans; eassumption]. }
  assert (Hret : ∀ s : CocoEditor,
    filter_applied (snd (mret (M := M) tt s)) = filter_applied s
    ∧ same_data (snd (mret (M := M) tt s)) s) by (intros s; repeat split).
  destruct c as [i e | i e | f t | | |]; try discriminate; intros _; cbn [run_call].
  - unfold add_file_name_filter. apply Htwo; intros s.
    + destruct i; [apply add_filter_frame | apply Hret].
    + destruct e; [apply add_filter_frame | apply Hret].
  - unfold add_category_filter. apply Htwo; intros s.
    + destruct i; [apply add_filter_frame | apply Hret].
    + destruct e; [apply add_filter_frame | apply Hret].
  - unfold add_custom_filter. destruct t; [apply add_filter_frame | repeat split].
Qed.

Lemma registrations_frame (calls : list call) (self : CocoEditor) :
  forallb is_registration calls = true →
  filter_applied (run_calls calls self) = filter_applied self
  ∧ same_data (run_calls calls self) self.
Proof.
  unfold run_calls. revert self.
  induction calls as [| c calls IH]; intros self; cbn [forallb fold_left].
  - repeat split.
  - intros [Hc Hcs]%andb_prop.
    destruct (IH (snd (run_call c self)) Hcs) as [Hf Hd].
    destruct (registration_frame c self Hc) as [Hf' Hd'].
    split; [congruence | eapply same_data_trans; eassumption].
Qed.

(** A filter registered after [apply_filter] has run is not applied by
    [correct], although [apply_filter] has not run since the
    registration. *)
Lemma correct_skips_filter_registered_late :
  let self := Scenario.registered_late in
  include_filters (image_filters self) = [ImageNameIncludeFilter ["image0.jpg"]]
  ∧ images (snd (correct true false self))
    = [Example.image0; Example.image1; Example.image2]
  ∧ images (snd ((apply_filter;; correct true false) self)) = [Example.image0]
  ∧ fst (correct true false self) ≠ fst ((apply_filter;; correct true false) self).
Proof.
  cbv zeta. split; [reflexivity |].
  assert (H1 : fst (correct true false Scenario.registered_late)
          = Ok (aggregate Example.editor)) by (vm_compute; reflexivity).
  assert (H2 : fst ((apply_filter;; correct true false) Scenario.registered_late)
          = Ok (aggregate
                  (snd ((apply_filter;; correct true false)
                          Scenario.registered_late))))
    by (vm_compute; reflexivity).
  assert (H3 : images (snd ((apply_filter;; correct true false)
                              Scenario.registered_late)) = [Example.image0])
    by (vm_compute; reflexivity).
  split; [vm_compute; reflexivity |]. split; [exact H3 |].
  rewrite H1, H2. intros Heq.
  apply (f_equal (fun r => match r with
                           | Ok agg => doc_images agg
                           | Raise _ => None
                           end)) in Heq.
  cbn [aggregate doc_images] in Heq. rewrite H3 in Heq. discriminate Heq.
Qed.

(** C6, amended.  [correct] first runs [apply_filter] exactly when
    [filter_applied] is false.  The flag is false after the constructor or
    [reset] has returned and true after [apply_filter] or [correct] has
    returned, and registering filters changes neither the flag nor the
    collections.  So once [apply_filter] has returned since the last load or
    reset, [correct] does not filter again, whatever filters are registered
    by then: it returns the same aggregate and leaves the same data with
    any Filter Sets. *)
Theorem correct_filters_by_flag :
  (∀ ci cc self, filter_applied self = false →
     correct ci cc self = (apply_filter;; correct ci cc) self)
  ∧ (∀ ci cc self fi fc fa fl, filter_applied self = true →
       fst (correct ci cc (with_filters fi fc fa fl self)) = fst (correct ci cc self)
       ∧ same_data (snd (correct ci cc (with_filters fi fc fa fl self)))
                   (snd (correct ci cc self)))
  ∧ (∀ doc fresh, __init__ doc = Ok fresh → filter_applied fresh = false)
  ∧ (∀ doc self st', reset doc self = (Ok tt, st') → filter_applied st' = false)
  ∧ (∀ self st', apply_filter self = (Ok tt, st') → filter_applied st' = true)
  ∧ (∀ ci cc self agg st', correct ci cc self = (Ok agg, st') →
       filter_applied st' = true)
  ∧ (∀ calls self, forallb is_registration calls = true →
       filter_applied (run_calls calls self) = filter_applied self
       ∧ same_data (run_calls calls self) self).
Proof.
  assert (Hinit : ∀ doc fresh, __init__ doc = Ok fresh → filter_applied fresh = false).
  { intros doc fresh. unfold __init__.
    destruct (doc_images doc) as [imgs |]; [| discriminate].
    destruct (doc_annotations doc) as [anns |]; [| discriminate].
    destruct (doc_categories doc) as [cats |]; [| discriminate].
    cbn [doc_getitem mbind result_bind].
    destruct (validate_images imgs) as [[] |]; [| discriminate].
    destruct (validate_categories cats) as [[] |]; [| discriminate].
    destruct (validate_annotations anns) as [[] |]; [| discriminate].
    cbn [mbind result_bind]. intros [= <-]. reflexivity. }
  repeat apply conj.
  - intros ci cc self Hflag. rewrite bind_M, correct_unfold, Hflag.
    destruct (apply_filter self) as [[[] | e] st0] eqn:Hap; [| reflexivity].
    apply apply_filter_ok in Hap as (_ & _ & _ & Hflag0).
    rewrite correct_unfold, Hflag0. reflexivity.
  - intros ci cc self fi fc fa fl Hflag. rewrite !correct_unfold.
    change (filter_applied (with_filters fi fc fa fl self))
      with (filter_applied self).
    rewrite Hflag. apply correction_pass_same_data. repeat split.
  - exact Hinit.
  - intros doc self st' Hreset.
    pose proof (reset_as_constructor doc self) as H.
    destruct (__init__ doc) as [fresh | e] eqn:Hfresh.
    + rewrite H in Hreset. injection Hreset as <-. exact (Hinit doc fresh Hfresh).
    + rewrite Hreset in H. discriminate H.
  - intros self st' H. apply apply_filter_ok in H. tauto.
  - intros ci cc self agg st' H.
    apply correct_ok in H as (st0 & _ & Hflag & _ & -> & _). exact Hflag.
  - exact registrations_frame.
Qed.

Lemma correct_filters_by_flag_witness :
  fst (correct true false Scenario.registered_late)
  = fst (correct true false
           (with_filters Filters_new Filters_new Filters_new Filters_new
                         Scenario.registered_late)).
Proof.
  destruct correct_filters_by_flag as (_ & H & _).
  symmetry. apply H. vm_compute. reflexivity.
Defined.

(** * Further properties *)

(** ** Registration *)

(** A registration call with a target that is none of image, category,
    annotation, license, or with no target, raises [ValueError] and leaves
    the editor exactly as it was. *)
Theorem add_custom_filter_invalid_target (custom_filter : BaseFilter)
    (target_type : option string) (self : CocoEditor) :
  (∀ t, target_type ≠ Some (target_name t)) →
  add_custom_filter custom_filter target_type self
  = (Raise (ValueError invalid_target_message), self).
Proof.
  intros H. destruct target_type as [name |]; [| reflexivity].
  unfold add_custom_filter, __add_filter. cbn [existsb].
  destruct (String.eqb_spec name "image") as [-> | _];
    [exfalso; exact (H IMAGE eq_refl) |].
  destruct (String.eqb_spec name "category") as [-> | _];
    [exfalso; exact (H CATEGORY eq_refl) |].
  destruct (String.eqb_spec name "annotation") as [-> | _];
    [exfalso; exact (H ANNOTATION eq_refl) |].
  destruct (String.eqb_spec name "license") as [-> | _];
    [exfalso; exact (H LICENSE eq_refl) |].
  reflexivity.
Qed.

Lemma add_custom_filter_invalid_target_witness :
  add_custom_filter (Scenario.AreaFilter INCLUSION 0) (Some "images") Example.editor
  = (Raise (ValueError invalid_target_message), Example.editor).
Proof.
  apply add_custom_filter_invalid_target.
  intros [] [=].
Defined.

(** A registration call with a valid target returns, hands the filter to
    the Filter Set of that collection and to no other, and changes neither
    the data nor [filter_applied]. *)
Theorem add_custom_filter_routes (custom_filter : BaseFilter) (t : TargetType)
    (self : CocoEditor) :
  ∃ st',
    add_custom_filter custom_filter (Some (target_name t)) self = (Ok tt, st')
    ∧ filters_of t st' = Filters_add (filters_of t self) custom_filter
    ∧ (∀ t', t' ≠ t → filters_of t' st' = filters_of t' self)
    ∧ same_data st' self
    ∧ filter_applied st' = filter_applied self.
Proof.
  destruct t; eexists; (split; [reflexivity |]);
    (split; [reflexivity |]); (split; [| repeat split]);
    intros [] Hne; try reflexivity; congruence.
Qed.

(** [add_file_name_filter] and [add_category_filter] never raise; the first
    changes the image Filter Set only and the second the category Filter
    Set only, adding an inclusion filter for the first argument and an
    exclusion filter for the second when they are given, and nothing when
    both are omitted. *)
Theorem name_filter_registration (include_names exclude_names : option (list string))
    (self : CocoEditor) :
  let add (make : list string -> BaseFilter) (names : option (list string))
          (fs : Filters) : Filters :=
    match names with
    | Some names => Filters_add fs (make names)
    | None => fs
    end in
  add_file_name_filter include_names exclude_names self
  = (Ok tt,
     set_image_filters
       (add ImageNameExcludeFilter exclude_names
          (add ImageNameIncludeFilter include_names (image_filters self))) self)
  ∧ add_category_filter include_names exclude_names self
    = (Ok tt,
       set_category_filters
         (add CategoryExcludeFilter exclude_names
            (add CategoryIncludeFilter include_names (category_filters self)))
         self).
Proof.
  cbv zeta. destruct include_names, exclude_names, self; split; reflexivity.
Qed.

(** ** Removing records only *)

Lemma sublist_List_filter {A : Type} (p : A -> bool) (l : list A) :
  sublist (List.filter p l) l.
Proof.
  induction l as [| x l IH]; simpl; [constructor |].
  destruct (p x); [apply sublist_skip | apply sublist_cons]; exact IH.
Qed.

Lemma shrinks_refl (self : CocoEditor) : shrinks self self.
Proof. split; [intros t; reflexivity | split; [| intros t]; reflexivity]. Qed.

Lemma shrinks_trans (a b c : CocoEditor) : shrinks a b → shrinks b c → shrinks a c.
Proof.
  intros (Hs1 & Hi1 & Hf1) (Hs2 & Hi2 & Hf2). split; [| split].
  - intros t. etransitivity; [apply Hs1 | apply Hs2].
  - congruence.
  - intros t. rewrite Hf1. apply Hf2.
Qed.

Lemma shrinks_set_collection (t : TargetType) (v : list Record) (self : CocoEditor) :
  sublist v (collection t self) → shrinks (set_collection t v self) self.
Proof.
  intros Hv. split; [| split].
  - intros t'. destruct t, t'; try exact Hv; reflexivity.
  - destruct t; reflexivity.
  - intros []; destruct t; reflexivity.
Qed.

(** Sequencing two methods that only remove records only removes
    records, whether they return or raise. *)
Lemma shrinks_bind {A B : Type} (m : M A) (k : A -> M B) :
  (∀ s, shrinks (snd (m s)) s) → (∀ a s, shrinks (snd (k a s)) s) →
  ∀ s, shrinks (snd ((m ≫= k) s)) s.
Proof.
  intros Hm Hk s. rewrite bind_M. specialize (Hm s).
  destruct (m s) as [[a | e] s1]; cbn [snd] in *; [| exact Hm].
  eapply shrinks_trans; [apply Hk | exact Hm].
Qed.

Lemma run_stages_sublist (fs : Filters) (l : list Record) :
  sublist (default l (snd (run_stages fs l))) l.
Proof.
  destruct (run_stages fs l) as [[[] | e] c] eqn:H; cbn [snd].
  - apply run_stages_ok in H. subst c.
    destruct (include_filters fs), (exclude_filters fs); cbn; unfold id;
      reflexivity || apply sublist_List_filter.
  - apply run_stages_raise in H as [-> | (_ & _ & -> & _)]; cbn; unfold id;
      reflexivity || apply sublist_List_filter.
Qed.

Lemma commit_shrinks (t : TargetType) (entry self : CocoEditor) :
  shrinks self entry →
  shrinks (commit t (snd (run_stages (filters_of t entry) (collection t entry))) self)
          entry.
Proof.
  intros Hs. pose proof (run_stages_sublist (filters_of t entry) (collection t entry)) as H.
  destruct (snd (run_stages _ _)) as [v |]; cbn [commit]; [| exact Hs].
  cbn in H. unfold id in H. destruct Hs as (Hsub & Hi & Hf). split; [| split].
  - intros t'. specialize (Hsub t'). destruct t, t'; try exact H; exact Hsub.
  - rewrite <- Hi. destruct t; reflexivity.
  - intros t'. rewrite <- Hf. destruct t, t'; reflexivity.
Qed.

Lemma run_targets_shrinks (ts : list TargetType) (entry self : CocoEditor) :
  shrinks self entry →
  shrinks (snd (run_targets ts entry self)) entry
  ∧ filter_applied (snd (run_targets ts entry self)) = filter_applied self.
Proof.
  revert self. induction ts as [| t ts IH]; intros self Hs; cbn [run_targets].
  - split; [exact Hs | reflexivity].
  - pose proof (commit_shrinks t entry self Hs) as Hc.
    destruct (commit_frame t (snd (run_stages (filters_of t entry) (collection t entry)))
                self) as (_ & Hflag & _).
    destruct (run_stages _ _) as [[[] | e] c]; cbn [snd] in *.
    + destruct (IH _ Hc) as [H1 H2]. split; [exact H1 | congruence].
    + split; [exact Hc | exact Hflag].
Qed.

Lemma apply_filter_shrinks (self : CocoEditor) :
  shrinks (snd (apply_filter self)) self.
Proof.
  rewrite apply_filter_run_targets.
  destruct (run_targets_shrinks all_targets self self (shrinks_refl self)) as [H _].
  destruct (run_targets all_targets self self) as [[[] | e] st]; cbn [snd] in *.
  - eapply shrinks_trans; [| exact H].
    split; [intros []; reflexivity | split; [| intros []]; reflexivity].
  - exact H.
Qed.

(** [apply_filter] only removes records: whether it returns or raises,
    every collection it leaves is a subsequence of the collection it found
    (same records, same order, none added or duplicated), and [info] and
    the Filter Sets are untouched. *)
Theorem apply_filter_only_removes (self st' : CocoEditor) (r : result unit) :
  apply_filter self = (r, st') →
  sublist (images st') (images self)
  ∧ sublist (categories st') (categories self)
  ∧ sublist (annotations st') (annotations self)
  ∧ sublist (licenses st') (licenses self)
  ∧ info st' = info self
  ∧ ∀ t, filters_of t st' = filters_of t self.
Proof.
  intros H. pose proof (apply_filter_shrinks self) as (Hs & Hi & Hf).
  rewrite H in Hs, Hi, Hf. cbn [snd] in *.
  split; [exact (Hs IMAGE) |]. split; [exact (Hs CATEGORY) |].
  split; [exact (Hs ANNOTATION) |]. split; [exact (Hs LICENSE) |].
  split; assumption.
Qed.

Lemma apply_filter_only_removes_witness :
  sublist (images (snd (apply_filter Scenario.raising)))
          (images Scenario.raising)
  ∧ sublist (categories (snd (apply_filter Scenario.raising)))
            (categories Scenario.raising).
Proof.
  destruct (apply_filter_only_removes Scenario.raising
              (snd (apply_filter Scenario.raising))
              (fst (apply_filter Scenario.raising)))
    as (Hi & Hc & _); [apply surjective_pairing |].
  split; assumption.
Defined.

(** When [apply_filter] raises, [filter_applied] keeps the value it had. *)
Lemma apply_filter_raise_flag (self st' : CocoEditor) (e : exn) :
  apply_filter self = (Raise e, st') → filter_applied st' = filter_applied self.
Proof.
  rewrite apply_filter_run_targets.
  destruct (run_targets_shrinks all_targets self self (shrinks_refl self)) as [_ H].
  destruct (run_targets all_targets self self) as [[[] | e'] st]; [discriminate |].
  intros [= <- <-]. exact H.
Qed.

(** With no filter registered for any collection, [apply_filter] returns,
    changes no collection, and sets [filter_applied]. *)
Theorem apply_filter_no_filters (self : CocoEditor) :
  (∀ t, include_filters (filters_of t self) = []
        ∧ exclude_filters (filters_of t self) = []) →
  apply_filter self = (Ok tt, set_filter_applied true self).
Proof.
  intros H. rewrite apply_filter_run_targets. unfold all_targets, run_targets, run_stages.
  destruct (H IMAGE) as [-> ->]. destruct (H CATEGORY) as [-> ->].
  destruct (H ANNOTATION) as [-> ->]. destruct (H LICENSE) as [-> ->].
  reflexivity.
Qed.

Lemma apply_filter_no_filters_witness :
  apply_filter Example.editor = (Ok tt, set_filter_applied true Example.editor).
Proof.
  apply apply_filter_no_filters. intros []; split; reflexivity.
Defined.

(** ** Applying the same filters again *)

Lemma include_loop_any_acc (fs : list BaseFilter) (d : Record) (acc r : list Record) :
  include_loop fs d acc = Ok r → ∀ acc', ∃ r', include_loop fs d acc' = Ok r'.
Proof.
  induction fs as [| f fs IH]; simpl; intros H acc'; [eauto |].
  destruct (apply f d) as [[|] | e]; simpl in *; [eauto | eauto | discriminate].
Qed.

Lemma exclude_loop_any_acc (fs : list BaseFilter) (d : Record) (acc r : list Record) :
  exclude_loop fs d acc = Ok r → ∀ acc', ∃ r', exclude_loop fs d acc' = Ok r'.
Proof.
  induction fs as [| f fs IH]; simpl; intros H acc'; [eauto |].
  destruct (apply f d) as [[|] | e]; simpl in *; [eauto | eauto | discriminate].
Qed.

(** A loop that returned returns on any list drawn from the same
    elements, when whether its body raises does not depend on the loop
    state. *)
Lemma for_in_returns_on_part {A S : Type} (body : A -> S -> result S)
    (l l' : list A) (s : S) (r : S) :
  (∀ x s r, body x s = Ok r → ∀ s', ∃ r', body x s' = Ok r') →
  for_in l body s = Ok r → (∀ x, In x l' → In x l) →
  ∀ s', ∃ r', for_in l' body s' = Ok r'.
Proof.
  intros Hbody Hl Hpart.
  assert (Helem : ∀ x, In x l → ∀ s', ∃ r', body x s' = Ok r').
  { clear Hpart. revert s Hl.
    induction l as [| y l IH]; intros s Hl x Hx s'; [destruct Hx |].
    destruct Hx as [<- | Hx].
    - simpl in Hl. destruct (body y s) as [s1 |] eqn:Hy; [| discriminate].
      exact (Hbody _ _ _ Hy s').
    - simpl in Hl. destruct (body y s) as [s1 |]; [| discriminate].
      exact (IH s1 Hl x Hx s'). }
  apply for_in_returns. intros x s0 Hx. apply Helem, Hpart, Hx.
Qed.

(** An iteration that returned returns again on the collection it left,
    and leaves it as it is. *)
Lemma run_stages_again (fs : Filters) (l : list Record) (c : option (list Record)) :
  run_stages fs l = (Ok tt, c) →
  ∃ c', run_stages fs (default l c) = (Ok tt, c')
        ∧ default (default l c) c' = default l c.
Proof.
  intros H. pose proof (run_stages_ok _ _ _ H) as Hc.
  revert H. unfold run_stages.
  destruct (include_filters fs) as [| fi incl] eqn:Hi,
           (exclude_filters fs) as [| fe excl] eqn:He; subst c; cbn [from_option]; unfold id.
  - eauto.
  - destruct (for_in l (exclude_loop _) []) as [r |] eqn:Hr; [| discriminate].
    intros _.
    destruct (for_in_returns_on_part _ l
                (List.filter (fun d => negb (excluded (fe :: excl) d)) l) _ _
                (exclude_loop_any_acc (fe :: excl)) Hr) with (s' := @nil Record)
      as [r' Hr']; [intros x Hx; apply filter_In in Hx; tauto |].
    rewrite Hr'. apply exclusion_pass in Hr'. subst r'.
    eexists. split; [reflexivity |]. cbn [from_option]. apply filter_filter.
  - destruct (for_in l (include_loop _) []) as [r |] eqn:Hr; [| discriminate].
    intros _.
    destruct (for_in_returns_on_part _ l
                (List.filter (included (fi :: incl)) l) _ _
                (include_loop_any_acc (fi :: incl)) Hr) with (s' := @nil Record)
      as [r' Hr']; [intros x Hx; apply filter_In in Hx; tauto |].
    rewrite Hr'. apply inclusion_pass in Hr'. subst r'.
    eexists. split; [reflexivity |]. cbn [from_option]. apply filter_filter.
  - destruct (for_in l (include_loop _) []) as [ri |] eqn:Hri; [| discriminate].
    destruct (for_in l (exclude_loop _) []) as [r |] eqn:Hr; [| discriminate].
    intros _.
    destruct (for_in_returns_on_part _ l
                (List.filter (fun d => negb (excluded (fe :: excl) d)) l) _ _
                (include_loop_any_acc (fi :: incl)) Hri) with (s' := @nil Record)
      as [ri' Hri']; [intros x Hx; apply filter_In in Hx; tauto |].
    destruct (for_in_returns_on_part _ l
                (List.filter (fun d => negb (excluded (fe :: excl) d)) l) _ _
                (exclude_loop_any_acc (fe :: excl)) Hr) with (s' := @nil Record)
      as [r' Hr']; [intros x Hx; apply filter_In in Hx; tauto |].
    rewrite Hri', Hr'. apply exclusion_pass in Hr'. subst r'.
    eexists. split; [reflexivity |]. cbn [from_option]. apply filter_filter.
Qed.

(** [apply_filter] is idempotent for fixed Filter Sets: when a call
    returns, a second call made right after it returns too and leaves the
    editor exactly as the first call left it. *)
Theorem apply_filter_idempotent (self st' : CocoEditor) :
  apply_filter self = (Ok tt, st') → apply_filter st' = (Ok tt, st').
Proof.
  intros H. apply apply_filter_ok in H as (Hcoll & _ & Hfs & Hflag).
  assert (Hagain : ∀ t, ∃ c', run_stages (filters_of t st') (collection t st')
                              = (Ok tt, c')
                             ∧ default (collection t st') c' = collection t st').
  { intros t. destruct (Hcoll t) as (c & Hc & ->). rewrite Hfs.
    apply run_stages_again. exact Hc. }
  rewrite apply_filter_run_targets. unfold all_targets, run_targets.
  destruct (Hagain IMAGE) as (c0 & -> & H0).
  destruct (Hagain CATEGORY) as (c1 & -> & H1).
  destruct (Hagain ANNOTATION) as (c2 & -> & H2).
  destruct (Hagain LICENSE) as (c3 & -> & H3).
  f_equal. destruct st'. cbn in *. unfold id in *.
  destruct c0, c1, c2, c3; cbn in *; subst; reflexivity.
Qed.

Lemma apply_filter_idempotent_witness :
  apply_filter (snd (apply_filter Scenario.both_kinds))
  = (Ok tt, snd (apply_filter Scenario.both_kinds)).
Proof.
  apply (apply_filter_idempotent Scenario.both_kinds). vm_compute. reflexivity.
Defined.

(** ** [correct]: what it leaves and how it fails *)

Lemma correct_annotations_category_shrinks (s : CocoEditor) :
  shrinks (snd (correct_annotations_category s)) s.
Proof.
  rewrite correct_annotations_category_eq.
  destruct (forallb _ (categories s)); [| apply shrinks_refl].
  destruct (forallb _ (annotations s)); [| apply shrinks_refl].
  apply (shrinks_set_collection ANNOTATION), sublist_List_filter.
Qed.

Lemma correct_annotations_image_shrinks (s : CocoEditor) :
  shrinks (snd (correct_annotations_image s)) s.
Proof.
  rewrite correct_annotations_image_eq.
  destruct (forallb _ (images s)); [| apply shrinks_refl].
  destruct (forallb _ (annotations s)); [| apply shrinks_refl].
  apply (shrinks_set_collection ANNOTATION), sublist_List_filter.
Qed.

Lemma correct_images_shrinks (s : CocoEditor) : shrinks (snd (correct_images s)) s.
Proof.
  rewrite correct_images_eq.
  destruct (forallb _ (annotations s)); [| apply shrinks_refl].
  destruct (forallb _ (images s)); [| apply shrinks_refl].
  apply (shrinks_set_collection IMAGE), sublist_List_filter.
Qed.

Lemma correct_categories_shrinks (s : CocoEditor) :
  shrinks (snd (correct_categories s)) s.
Proof.
  rewrite correct_categories_eq.
  destruct (forallb _ (annotations s)); [| apply shrinks_refl].
  destruct (forallb _ (categories s)); [| apply shrinks_refl].
  apply (shrinks_set_collection CATEGORY), sublist_List_filter.
Qed.

Lemma correction_pass_shrinks (ci cc : bool) (s : CocoEditor) :
  shrinks (snd (correction_pass ci cc s)) s.
Proof.
  revert s. unfold correction_pass.
  apply shrinks_bind; [apply correct_annotations_category_shrinks | intros _].
  apply shrinks_bind; [apply correct_annotations_image_shrinks | intros _].
  apply shrinks_bind;
    [destruct ci; [apply correct_images_shrinks | apply shrinks_refl] | intros _].
  apply shrinks_bind;
    [destruct cc; [apply correct_categories_shrinks | apply shrinks_refl] | intros _].
  apply shrinks_refl.
Qed.

Lemma correct_shrinks (ci cc : bool) (self : CocoEditor) :
  shrinks (snd (correct ci cc self)) self.
Proof.
  rewrite correct_unfold. destruct (filter_applied self).
  - apply correction_pass_shrinks.
  - pose proof (apply_filter_shrinks self) as H.
    destruct (apply_filter self) as [[[] | e] st0]; cbn [snd] in *; [| exact H].
    eapply shrinks_trans; [apply correction_pass_shrinks | exact H].
Qed.

(** [correct] only removes records: whether it returns or raises, every
    collection it leaves is a subsequence of the collection it found, and
    [info] and the Filter Sets are untouched. *)
Theorem correct_only_removes (correct_image correct_category : bool)
    (self st' : CocoEditor) (r : result Document) :
  correct correct_image correct_category self = (r, st') →
  sublist (images st') (images self)
  ∧ sublist (categories st') (categories self)
  ∧ sublist (annotations st') (annotations self)
  ∧ sublist (licenses st') (licenses self)
  ∧ info st' = info self
  ∧ ∀ t, filters_of t st' = filters_of t self.
Proof.
  intros H.
  pose proof (correct_shrinks correct_image correct_category self) as (Hs & Hi & Hf).
  rewrite H in Hs, Hi, Hf. cbn [snd] in *.
  split; [exact (Hs IMAGE) |]. split; [exact (Hs CATEGORY) |].
  split; [exact (Hs ANNOTATION) |]. split; [exact (Hs LICENSE) |].
  split; assumption.
Qed.

Lemma correct_only_removes_witness :
  sublist (annotations (snd (correct true false image_without_id)))
          (annotations image_without_id).
Proof.
  destruct (correct_only_removes true false image_without_id
              (snd (correct true false image_without_id))
              (fst (correct true false image_without_id)))
    as (_ & _ & Ha & _); [apply surjective_pairing |].
  exact Ha.
Defined.

(** When [apply_filter] raises inside [correct], [correct] raises the same
    exception, takes none of its correction steps, and leaves
    [filter_applied] false, so that a later [correct] runs [apply_filter]
    again. *)
Theorem correct_propagates_filter_exception (correct_image correct_category : bool)
    (self st0 : CocoEditor) (e : exn) :
  filter_applied self = false →
  apply_filter self = (Raise e, st0) →
  correct correct_image correct_category self = (Raise e, st0)
  ∧ filter_applied st0 = false.
Proof.
  intros Hflag Hap. rewrite correct_unfold, Hflag, Hap.
  split; [reflexivity |]. rewrite <- Hflag. exact (apply_filter_raise_flag _ _ _ Hap).
Qed.

Lemma correct_propagates_filter_exception_witness :
  correct true false Scenario.raising
  = (Raise (Raised "RuntimeError"), snd (apply_filter Scenario.raising)).
Proof.
  apply (correct_propagates_filter_exception true false Scenario.raising).
  - reflexivity.
  - vm_compute. reflexivity.
Defined.

(** With the filters applied, [correct] raises [KeyError] and leaves the
    editor exactly as it was when a category has no [id] or, the
    categories having one, an annotation has no [category_id]. *)
Theorem correct_key_error_before_step_1 (correct_image correct_category : bool)
    (self : CocoEditor) :
  filter_applied self = true →
  ¬ (all_have "id" (categories self)
     ∧ all_have "category_id" (annotations self)) →
  correct correct_image correct_category self
  = (Raise (KeyError (if forallb (fun d => has_key d "id") (categories self)
                      then "category_id" else "id")), self).
Proof.
  intros Hflag Hkeys. rewrite correct_unfold, Hflag. unfold correction_pass.
  rewrite bind_M, correct_annotations_category_eq.
  destruct (forallb _ (categories self)) eqn:Hc; [| reflexivity].
  destruct (forallb _ (annotations self)) eqn:Ha; [| reflexivity].
  exfalso. apply Hkeys. split; apply forallb_has_key; assumption.
Qed.

Lemma correct_key_error_before_step_1_witness :
  correct true false category_without_id = (Raise (KeyError "id"), category_without_id).
Proof.
  apply (correct_key_error_before_step_1 true false category_without_id).
  - reflexivity.
  - intros [H _]. apply forallb_has_key in H. vm_compute in H. discriminate H.
Defined.

(** [correct] is not atomic.  With the filters applied, when an image has
    no [id] or an annotation that survived step 1 has no [image_id],
    [correct] raises [KeyError] after step 1: the annotations whose
    category is not held are already removed, and nothing else is
    changed. *)
Theorem correct_key_error_after_step_1 (correct_image correct_category : bool)
    (self : CocoEditor) :
  filter_applied self = true →
  all_have "id" (categories self) →
  all_have "category_id" (annotations self) →
  let anns1 :=
    drop_annotations_without_category (categories self) (annotations self) in
  ¬ (all_have "id" (images self) ∧ all_have "image_id" anns1) →
  correct correct_image correct_category self
  = (Raise (KeyError (if forallb (fun d => has_key d "id") (images self)
                      then "image_id" else "id")),
     set_annotations anns1 self).
Proof.
  intros Hflag Hc Ha anns1 Hkeys. rewrite correct_unfold, Hflag.
  apply forallb_has_key in Hc, Ha. unfold correction_pass.
  rewrite bind_M, correct_annotations_category_eq, Hc, Ha.
  rewrite bind_M, correct_annotations_image_eq. cbn [images annotations set_annotations].
  destruct (forallb _ (images self)) eqn:Hi; [| reflexivity].
  destruct (forallb _ (drop_annotations_without_category _ _)) eqn:Hai;
    [| reflexivity].
  exfalso. apply Hkeys. split; apply forallb_has_key; assumption.
Qed.

Lemma correct_key_error_after_step_1_witness :
  correct true false image_without_id
  = (Raise (KeyError "id"), set_annotations [Example.annotation1] image_without_id).
Proof.
  assert (H : drop_annotations_without_category (categories image_without_id)
                (annotations image_without_id) = [Example.annotation1])
    by (vm_compute; reflexivity).
  rewrite <- H.
  apply (correct_key_error_after_step_1 true false image_without_id).
  - reflexivity.
  - apply forallb_has_key. vm_compute. reflexivity.
  - apply forallb_has_key. vm_compute. reflexivity.
  - intros [Hi _]. apply forallb_has_key in Hi. vm_compute in Hi. discriminate Hi.
Defined.

(** No orphans are left by the optional steps.  When [correct] returns with
    [correct_image] set, every image it leaves is referred to by an
    annotation it leaves; with [correct_category] set, so is every
    category. *)
Theorem correct_leaves_no_orphan (correct_image correct_category : bool)
    (self st' : CocoEditor) (agg : Document) :
  correct correct_image correct_category self = (Ok agg, st') →
  (correct_image = true →
   ∀ img, In img (images st') → referenced_by "image_id" (annotations st') img)
  ∧ (correct_category = true →
     ∀ cat, In cat (categories st') →
            referenced_by "category_id" (annotations st') cat).
Proof.
  intros H. apply correct_ok in H as (st0 & _ & _ & _ & -> & _).
  unfold corrected, referenced_by.
  cbn [images categories annotations set_annotations set_images set_categories].
  split; intros ->.
  - intros img Himg. unfold drop_unreferenced_images in Himg.
    apply keep_by_In in Himg as [_ (w & v & Hw & Hv & Heq)].
    apply fields_In in Hv as (ann & Hann & Hv).
    exists w, ann, v. repeat split; try assumption. rewrite py_eq_sym. exact Heq.
  - intros cat Hcat. unfold drop_unreferenced_categories in Hcat.
    apply keep_by_In in Hcat as [_ (w & v & Hw & Hv & Heq)].
    apply fields_In in Hv as (ann & Hann & Hv).
    exists w, ann, v. repeat split; try assumption. rewrite py_eq_sym. exact Heq.
Qed.

Lemma correct_leaves_no_orphan_witness :
  referenced_by "category_id"
    (annotations (snd (correct true true Scenario.filtered))) Example.category0.
Proof.
  apply (correct_leaves_no_orphan true true Scenario.filtered _
           (aggregate (snd (correct true true Scenario.filtered))));
    [vm_compute; reflexivity | reflexivity |].
  assert (H : categories (snd (correct true true Scenario.filtered))
              = [Example.category0]) by (vm_compute; reflexivity).
  rewrite H. left. reflexivity.
Defined.

(** ** Validation is kept *)

Lemma validate_keys_ok (data : list Record) (required_keys : list string)
    (target : string) :
  validate_keys data required_keys target = Ok tt
  ↔ ∀ d, In d data → complete required_keys d.
Proof.
  induction data as [| d data IH]; [split; [intros _ d [] | reflexivity] |].
  rewrite validate_keys_cons.
  destruct (missing required_keys d) as [| k ks] eqn:Hm.
  - apply missing_nil in Hm. rewrite IH. split.
    + intros H d' [<- | Hd']; [exact Hm | apply H, Hd'].
    + intros H d' Hd'. apply H. right. exact Hd'.
  - split; [discriminate |]. intros H.
    assert (Hc : complete required_keys d) by (apply H; left; reflexivity).
    apply missing_nil in Hc. congruence.
Qed.

Lemma validate_keys_sublist (l l' : list Record) (required_keys : list string)
    (target : string) :
  sublist l' l → validate_keys l required_keys target = Ok tt →
  validate_keys l' required_keys target = Ok tt.
Proof.
  rewrite !validate_keys_ok. intros Hsub H d Hd. apply H.
  apply list_elem_of_In. apply list_elem_of_In in Hd.
  exact (elem_of_sublist _ _ _ Hd Hsub).
Qed.

Lemma validated_shrinks (a b : CocoEditor) : shrinks a b → validated b → validated a.
Proof.
  intros (Hs & _ & _) (Hi & Hc & Ha). repeat split.
  - exact (validate_keys_sublist _ _ _ _ (Hs IMAGE) Hi).
  - exact (validate_keys_sublist _ _ _ _ (Hs CATEGORY) Hc).
  - exact (validate_keys_sublist _ _ _ _ (Hs ANNOTATION) Ha).
Qed.

Lemma validated_same_data (a b : CocoEditor) : same_data a b → validated b → validated a.
Proof.
  intros (Hi & Ha & Hc & _) H. unfold validated. rewrite Hi, Ha, Hc. exact H.
Qed.

Lemma validated_keyed (self : CocoEditor) : validated self → keyed self.
Proof.
  intros (Hi & Hc & Ha). unfold validate_images, validate_categories,
    validate_annotations in *. rewrite validate_keys_ok in Hi, Hc, Ha.
  unfold keyed, all_have. rewrite !Forall_forall. repeat split; intros d Hd;
    apply list_elem_of_In in Hd.
  - apply (Hi d Hd). simpl. tauto.
  - apply (Hc d Hd). simpl. tauto.
  - apply (Ha d Hd). simpl. tauto.
  - apply (Ha d Hd). simpl. tauto.
Qed.

Lemma init_validated (doc : Document) (fresh : CocoEditor) :
  __init__ doc = Ok fresh → validated fresh.
Proof.
  unfold __init__.
  destruct (doc_images doc) as [imgs |]; [| discriminate].
  destruct (doc_annotations doc) as [anns |]; [| discriminate].
  destruct (doc_categories doc) as [cats |]; [| discriminate].
  cbn [doc_getitem mbind result_bind].
  destruct (validate_images imgs) as [[] |] eqn:Hi; [| discriminate].
  destruct (validate_categories cats) as [[] |] eqn:Hc; [| discriminate].
  destruct (validate_annotations anns) as [[] |] eqn:Ha; [| discriminate].
  cbn [mbind result_bind]. intros [= <-]. repeat split; assumption.
Qed.

Lemma validated_run_call (c : call) (self : CocoEditor) :
  match c with Reset a => is_ok (__init__ a) = true | _ => True end →
  validated self → validated (snd (run_call c self)).
Proof.
  intros Hc Hv. destruct c as [i e | i e | f t | | ci cc | a].
  - eapply validated_same_data; [| exact Hv].
    apply (registration_frame (AddFileNameFilter i e)). reflexivity.
  - eapply validated_same_data; [| exact Hv].
    apply (registration_frame (AddCategoryFilter i e)). reflexivity.
  - eapply validated_same_data; [| exact Hv].
    apply (registration_frame (AddCustomFilter f t)). reflexivity.
  - eapply validated_shrinks; [apply apply_filter_shrinks | exact Hv].
  - cbn [run_call]. rewrite bind_M.
    pose proof (correct_shrinks ci cc self) as Hs.
    destruct (correct ci cc self) as [[agg | e] st]; cbn [snd] in *;
      exact (validated_shrinks _ _ Hs Hv).
  - cbn [run_call]. pose proof (reset_as_constructor a self) as Hr.
    destruct (__init__ a) as [fresh | e] eqn:Hinit; [| discriminate Hc].
    rewrite Hr. exact (init_validated _ _ Hinit).
Qed.

Lemma validated_run_calls (calls : list call) (self : CocoEditor) :
  resets_accepted calls → validated self → validated (run_calls calls self).
Proof.
  unfold run_calls, resets_accepted. revert self.
  induction calls as [| c calls IH]; intros self Hcs Hv; [exact Hv |].
  apply Forall_cons in Hcs as [Hc Hcs]. cbn [fold_left].
  apply IH; [exact Hcs | apply validated_run_call; assumption].
Qed.

(** The required fields are an invariant.  On an editor built by the
    constructor, after any sequence of registrations, [apply_filter],
    [correct] and [reset] calls, returning or raising, in which every
    [reset] is given a document the constructor accepts, the three
    collections still pass validation; so [correct] does not raise
    [KeyError] there: it returns, unless a decision function still to be
    applied raises. *)
Theorem validation_is_invariant (doc : Document) (fresh : CocoEditor)
    (calls : list call) (correct_image correct_category : bool) :
  __init__ doc = Ok fresh →
  resets_accepted calls →
  let self := run_calls calls fresh in
  validated self
  ∧ ((filter_applied self = false → filters_never_raise self) →
     ∃ agg st', correct correct_image correct_category self = (Ok agg, st')).
Proof.
  intros Hinit Hcs self.
  assert (Hv : validated self)
    by (apply validated_run_calls; [exact Hcs | exact (init_validated _ _ Hinit)]).
  split; [exact Hv |]. intros Hnr.
  destruct (correct_returns correct_image correct_category self
              (validated_keyed _ Hv) Hnr) as (st0 & _ & H).
  eauto.
Qed.

Lemma validation_is_invariant_witness :
  validated (run_calls [AddFileNameFilter (Some ["image0.jpg"]) None;
                        AddCustomFilter (Scenario.RaisingFilter INCLUSION)
                                        (Some "category");
                        Correct true true; Reset Example.dataset;
                        ApplyFilter] Example.editor).
Proof.
  apply (validation_is_invariant Example.dataset Example.editor _ true true).
  - vm_compute. reflexivity.
  - repeat constructor.
Defined.

(** The aggregate [correct] returns can be loaded again.  When the
    collections pass validation and [correct] returns, the constructor
    accepts the returned aggregate and builds an editor holding exactly the
    data [correct] left, with empty Filter Sets and [filter_applied]
    false. *)
Theorem correct_aggregate_reloads (correct_image correct_category : bool)
    (self st' : CocoEditor) (agg : Document) :
  validated self →
  correct correct_image correct_category self = (Ok agg, st') →
  __init__ agg
  = Ok (Build_CocoEditor (images st') (annotations st') (categories st')
          (licenses st') (info st')
          Filters_new Filters_new Filters_new Filters_new false).
Proof.
  intros Hv H.
  pose proof (correct_shrinks correct_image correct_category self) as Hs.
  rewrite H in Hs. cbn [snd] in Hs.
  destruct (validated_shrinks _ _ Hs Hv) as (Hi & Hc & Ha).
  apply correct_ok in H as (_ & _ & _ & _ & _ & ->).
  unfold __init__, aggregate.
  cbn [doc_images doc_annotations doc_categories doc_licenses doc_info
       doc_getitem mbind result_bind default from_option].
  rewrite Hi. cbn [mbind result_bind]. rewrite Hc. cbn [mbind result_bind].
  rewrite Ha. reflexivity.
Qed.

Lemma correct_aggregate_reloads_witness :
  is_ok (__init__ (aggregate (snd (correct true false Scenario.filtered)))) = true.
Proof.
  rewrite (correct_aggregate_reloads true false Scenario.filtered
             (snd (correct true false Scenario.filtered))
             (aggregate (snd (correct true false Scenario.filtered)))).
  - reflexivity.
  - repeat split; vm_compute; reflexivity.
  - vm_compute. reflexivity.
Defined.

(** ** Loading *)

(** What the constructor accepts.  It returns exactly when the document
    has the keys [images], [annotations] and [categories] and every record
    of these three lists carries the fields required of it; [licenses] and
    [info] may be absent, and the records of [licenses] are not checked. *)
Theorem constructor_accepts_iff (doc : Document) :
  (∃ fresh, __init__ doc = Ok fresh)
  ↔ ∃ imgs anns cats,
      doc_images doc = Some imgs ∧ doc_annotations doc = Some anns
      ∧ doc_categories doc = Some cats
      ∧ (∀ d, In d imgs → complete ["id"; "file_name"; "width"; "height"] d)
      ∧ (∀ d, In d cats → complete ["id"; "name"; "supercategory"] d)
      ∧ (∀ d, In d anns →
           complete ["id"; "image_id"; "category_id"; "bbox"; "area";
                     "segmentation"] d).
Proof.
  unfold __init__. split.
  - intros [fresh H].
    destruct (doc_images doc) as [imgs |]; [| discriminate].
    destruct (doc_annotations doc) as [anns |]; [| discriminate].
    destruct (doc_categories doc) as [cats |]; [| discriminate].
    cbn [doc_getitem mbind result_bind] in H.
    destruct (validate_images imgs) as [[] |] eqn:Hi; [| discriminate].
    destruct (validate_categories cats) as [[] |] eqn:Hc; [| discriminate].
    destruct (validate_annotations anns) as [[] |] eqn:Ha; [| discriminate].
    exists imgs, anns, cats. repeat split; try reflexivity.
    + apply (proj1 (validate_keys_ok _ _ _) Hi).
    + apply (proj1 (validate_keys_ok _ _ _) Hc).
    + apply (proj1 (validate_keys_ok _ _ _) Ha).
  - intros (imgs & anns & cats & -> & -> & -> & Hi & Hc & Ha).
    cbn [doc_getitem mbind result_bind].
    unfold validate_images, validate_categories, validate_annotations.
    rewrite (proj2 (validate_keys_ok _ _ _) Hi). cbn [mbind result_bind].
    rewrite (proj2 (validate_keys_ok _ _ _) Hc). cbn [mbind result_bind].
    rewrite (proj2 (validate_keys_ok _ _ _) Ha). cbn [mbind result_bind].
    eauto.
Qed.

(** [reset] is not atomic.  When it raises, the Filter Sets and
    [filter_applied] are as they were, but each collection whose key was
    read before the failure has already been replaced by the document's
    list: nothing when [images] is missing, the images when [annotations]
    is missing, images and annotations when [categories] is missing, and
    all the data of the document, unvalidated, when validation fails. *)
Theorem reset_raise_keeps_filters (doc : Document) (self st' : CocoEditor)
    (e : exn) :
  reset doc self = (Raise e, st') →
  filter_applied st' = filter_applied self
  ∧ (∀ t, filters_of t st' = filters_of t self)
  ∧ match doc_images doc, doc_annotations doc, doc_categories doc with
    | None, _, _ => st' = self ∧ e = KeyError "images"
    | Some imgs, None, _ =>
        st' = set_images imgs self ∧ e = KeyError "annotations"
    | Some imgs, Some anns, None =>
        st' = set_annotations anns (set_images imgs self)
        ∧ e = KeyError "categories"
    | Some imgs, Some anns, Some cats =>
        images st' = imgs ∧ annotations st' = anns ∧ categories st' = cats
        ∧ licenses st' = default [] (doc_licenses doc)
        ∧ info st' = default ∅ (doc_info doc)
    end.
Proof.
  unfold reset.
  destruct (doc_images doc) as [imgs |];
    [| intros [= <- <-]; repeat split; intros []; reflexivity].
  destruct (doc_annotations doc) as [anns |];
    [| intros [= <- <-]; repeat split; intros []; reflexivity].
  destruct (doc_categories doc) as [cats |];
    [| intros [= <- <-]; repeat split; intros []; reflexivity].
  unfold mbind, M_bind, lift, assign, get_self, doc_getitem.
  cbn [images annotations categories set_images set_annotations
       set_categories set_licenses set_info].
  destruct (validate_images imgs) as [[] |];
    [| intros [= <- <-]; repeat split; intros []; reflexivity].
  destruct (validate_categories cats) as [[] |];
    [| intros [= <- <-]; repeat split; intros []; reflexivity].
  destruct (validate_annotations anns) as [[] |];
    [discriminate | intros [= <- <-]; repeat split; intros []; reflexivity].
Qed.

Lemma reset_raise_keeps_filters_witness :
  filter_applied (snd (reset invalid_document Scenario.filtered)) = true
  ∧ images (snd (reset invalid_document Scenario.filtered)) = [data_item_no_id]
  ∧ image_filters (snd (reset invalid_document Scenario.filtered))
    = image_filters Scenario.filtered.
Proof.
  destruct (reset_raise_keeps_filters invalid_document Scenario.filtered
              (snd (reset invalid_document Scenario.filtered))
              (MissingKeys ["id"; "file_name"; "width"; "height"] "image"
                 (VStr "Unknown")))
    as (Hflag & Hfs & Hdata); [vm_compute; reflexivity |].
  cbn [invalid_document doc_images doc_annotations doc_categories] in Hdata.
  destruct Hdata as (Hi & _).
  split; [rewrite Hflag; reflexivity |].
  split; [exact Hi | exact (Hfs IMAGE)].
Defined.

(** ** Correcting in two calls *)

Lemma corrected_compose (ci cc ci' cc' : bool) (self : CocoEditor) :
  corrected ci' cc' (corrected ci cc self) = corrected (ci || ci') (cc || cc') self.
Proof.
  pose proof (corrected_integrity ci cc self) as Hint.
  set (st1 := corrected ci cc self) in *.
  assert (H1 : drop_annotations_without_category (categories st1) (annotations st1)
               = annotations st1).
  { apply keep_by_all. intros ann Hann. apply (Hint ann Hann). }
  assert (H2 : drop_annotations_without_image (images st1) (annotations st1)
               = annotations st1).
  { apply keep_by_all. intros ann Hann. apply (Hint ann Hann). }
  unfold corrected at 1. cbv zeta. rewrite H1, H2.
  unfold st1, corrected, drop_unreferenced_images, drop_unreferenced_categories,
    keep_by.
  destruct self, ci, ci', cc, cc';
    cbn [images annotations categories licenses info image_filters
         category_filters annotation_filters licenses_filters filter_applied
         set_annotations set_images set_categories orb];
    rewrite ?filter_filter; reflexivity.
Qed.

(** Two calls of [correct] amount to one call with each flag set if either
    call sets it.  When [correct(a, b)] returns, [correct(a', b')] called
    right after it ends exactly as [correct(a or a', b or b')] ends on the
    editor the first call found: same aggregate, same editor. *)
Theorem correct_twice (ci cc ci' cc' : bool) (self st1 : CocoEditor)
    (agg : Document) :
  correct ci cc self = (Ok agg, st1) →
  correct ci' cc' st1 = correct (ci || ci') (cc || cc') self.
Proof.
  intros H. apply correct_ok in H as (st0 & Hst0 & Hflag & Hpass & -> & ->).
  apply correction_pass_ok in Hpass as (Hi & Hc & Hac & Hai).
  set (st1 := corrected ci cc st0).
  pose proof (corrected_integrity ci cc st0) as Hint. fold st1 in Hint.
  assert (Ha1 : all_have "category_id" (annotations st1)).
  { apply all_have_keep_by, all_have_keep_by. exact Hac. }
  assert (Ha2 : all_have "image_id" (annotations st1)).
  { apply all_have_keep_by. exact Hai. }
  assert (Hi1 : all_have "id" (images st1)).
  { unfold st1, corrected. cbn [images set_annotations set_images set_categories].
    destruct ci; [apply all_have_keep_by |]; exact Hi. }
  assert (Hc1 : all_have "id" (categories st1)).
  { unfold st1, corrected. cbn [categories set_annotations set_images set_categories].
    destruct cc; [apply all_have_keep_by |]; exact Hc. }
  assert (Hsecond : correct ci' cc' st1
            = (Ok (aggregate (corrected (ci || ci') (cc || cc') st0)),
               corrected (ci || ci') (cc || cc') st0)).
  { rewrite correct_unfold.
    change (filter_applied st1) with (filter_applied st0). rewrite Hflag.
    rewrite correction_pass_returns; try assumption.
    - unfold st1. rewrite corrected_compose. reflexivity.
    - unfold drop_annotations_without_category. rewrite keep_by_all; [exact Ha2 |].
      intros ann Hann. apply (Hint ann Hann). }
  rewrite Hsecond, correct_unfold.
  destruct (filter_applied self).
  - subst st0. rewrite correction_pass_returns by assumption. reflexivity.
  - rewrite Hst0. rewrite correction_pass_returns by assumption. reflexivity.
Qed.

Lemma correct_twice_witness :
  correct false true (snd (correct true false Scenario.filtered))
  = correct true true Scenario.filtered.
Proof.
  apply (correct_twice true false false true Scenario.filtered _
           (aggregate (snd (correct true false Scenario.filtered)))).
  vm_compute. reflexivity.
Defined.
